(** * Checkerboard swap chains on directed graphs

    A shallow embedding of [src/weighted_swap.cpp]: the uniform sampler
    [simple_swap_n] and the weighted sampler [swap_n], with the hash sets,
    the random draws and the per-step diagnostic columns they maintain.

    Conventions of the embedding.
    - A vertex id comes in an R numeric vector, as a double holding an
      integer: a [Z] here. The code reads it into an [int], and builds its
      pairs of [int]s from it: [to_int]. No arithmetic is done on vertices,
      only equality and hashing. The vectors [Re_from] and [Re_to] are taken
      to be two R objects, not one passed twice.
    - [std::unordered_set<std::pair<int,int>>] is a [gset (Z * Z)];
      [s.find(p) != s.end()] is membership.
    - [double] is the kernel's binary64 [float]; [*], [/] and [<] are
      [PrimFloat.mul], [PrimFloat.div] and [PrimFloat.ltb].
    - A vector is a list. Reading or writing it outside its bounds is
      undefined behaviour in the source (Rcpp's [operator[]] does not stop);
      the embedding returns [None] there, and [None] propagates.
    - The weight matrix [w(i,j)] is a function of the two indices: the table
      is taken to cover every vertex, as the interface requires.
    - [std::random_device] is an input [rd] of the entry points: the value
      it would hand out in that call. *)

From Stdlib Require Import ZArith Floats.
From stdpp Require Import base option list gmap sets.

Set Warnings "-clear-no-such-hyp".

(** ** The random number generator

    [std::mt19937], [std::uniform_int_distribution<>] and
    [std::uniform_real_distribution<>] belong to the C++ library; the
    sampler only threads the generator through its draws. *)

Class Generator := {
  G : Type;
  (** [std::mt19937 gen(seed)] *)
  mt19937 : Z → G;
  (** [std::uniform_int_distribution<>(a, b)(gen)] *)
  randint : Z → Z → G → Z * G;
  (** [std::uniform_real_distribution<>(0.0, 1.0)(gen)] *)
  randu : G → float * G;
}.

(** What the C++ standard promises of the two distributions: an integer in
    the closed range [a, b], a real in the half-open range [0, 1). *)
Class GeneratorLaws (R : Generator) : Prop := {
  randint_range : ∀ a b g, (a ≤ b)%Z → (a ≤ (randint a b g).1 ≤ b)%Z;
  randu_range : ∀ g,
    PrimFloat.leb 0 (randu g).1 = true ∧ PrimFloat.ltb (randu g).1 1 = true;
}.

(** ** Vectors and hash sets *)

(** [v[i]] as an rvalue, for an [int] index. *)
Definition vec_get {A} (v : list A) (i : Z) : option A :=
  if bool_decide (0 ≤ i)%Z then v !! Z.to_nat i else None.

(** [v[i] = x]. *)
Definition vec_set {A} (v : list A) (i : Z) (x : A) : option (list A) :=
  if bool_decide (0 ≤ i < Z.of_nat (length v))%Z
  then Some (<[Z.to_nat i := x]> v) else None.

(** The conversion of a vector entry to [int] (lines 51 and 69-72, 134, 140
    and 169-172). A value of the range of [int] is kept. For a value outside
    it C++ leaves the conversion undefined; compiled for x86-64 it is the
    instruction [cvttsd2si], which gives [INT_MIN]. *)
Definition int_min : Z := (-2147483648)%Z.
Definition int_max : Z := 2147483647%Z.

Definition in_int_range (x : Z) : Prop := (int_min ≤ x ≤ int_max)%Z.

Definition to_int (x : Z) : Z :=
  if bool_decide (int_min ≤ x ≤ int_max)%Z then x else int_min.

(** [pair_hash] (lines 8-12): each component hashed by [std::hash<int>], the
    two hashes combined by exclusive or. [std::hash<int>] is the C++
    library's and a parameter here; a [size_t] is a [Z]. *)
Definition pair_hash (hash_int : Z → Z) (v : Z * Z) : Z :=
  Z.lxor (hash_int v.1) (hash_int v.2).

(** [pair_equal] (lines 13-17). *)
Definition pair_equal (p1 p2 : Z * Z) : bool :=
  (p1.1 =? p2.1)%Z && (p1.2 =? p2.2)%Z.

(** [s.find(p) != s.end()]. *)
Definition found (s : gset (Z * Z)) (p : Z * Z) : bool := bool_decide (p ∈ s).

(** [for (int i=0; i<m; i++) s.insert(std::make_pair(from[i], to[i]));]
    run on an empty set. The pair of doubles is converted to the set's pair
    of [int]s. Iteration [i] is the last step of [build_set _ _ (S i)]. *)
Fixpoint build_set (from to : list Z) (m : nat) : option (gset (Z * Z)) :=
  match m with
  | O => Some ∅
  | S i =>
      s ← build_set from to i;
      a ← from !! i;
      b ← to !! i;
      Some ({[ (to_int a, to_int b) ]} ∪ s)
  end.

(** The seed after lines 40-43 and 122-125: the sentinel [-1] asks
    [std::random_device] for one. *)
Definition effective_seed (seed rd : Z) : Z :=
  if bool_decide (seed = (-1)%Z) then rd else seed.

(** ** State shared by the two samplers *)

Section Sampler.
Context {R : Generator}.

Record chain := Chain {
  e_from : list Z;
  e_to : list Z;
  edgeSet : gset (Z * Z);
  gen : G;
}.

Definition with_gen (g : G) (st : chain) : chain :=
  Chain (e_from st) (e_to st) (edgeSet st) g.

(** The edge list the two parallel vectors encode. *)
Definition edges (st : chain) : list (Z * Z) := zip (e_from st) (e_to st).

(** The edge list as the code reads it: every entry converted to [int]. *)
Definition seen (st : chain) : list (Z * Z) :=
  zip (to_int <$> e_from st) (to_int <$> e_to st).

(** The four endpoints read into [int] locals at lines 69-72 and 169-172:
    [(e_from_i, e_to_i, e_from_j, e_to_j)]. *)
Definition endpoints (st : chain) (i j : Z) : option (Z * Z * Z * Z) :=
  e_from_i ← to_int <$> vec_get (e_from st) i;
  e_to_i ← to_int <$> vec_get (e_to st) i;
  e_from_j ← to_int <$> vec_get (e_from st) j;
  e_to_j ← to_int <$> vec_get (e_to st) j;
  Some (e_from_i, e_to_i, e_from_j, e_to_j).

(** Lines 79-86 and 195-202, on the four [int] locals: the swap in the hash
    set, then in the edge list (only the [from] fields of slots [i] and [j]
    are written, with the locals [e_from_j] and [e_from_i]). *)
Definition commit (i j : Z) (e_from_i e_to_i e_from_j e_to_j : Z)
    (st : chain) : option chain :=
  let s1 := {[ (e_from_i, e_to_j) ]} ∪ edgeSet st in
  let s2 := {[ (e_from_j, e_to_i) ]} ∪ s1 in
  let s3 := s2 ∖ {[ (e_from_i, e_to_i) ]} in
  let s4 := s3 ∖ {[ (e_from_j, e_to_j) ]} in
  f1 ← vec_set (e_from st) i e_from_j;
  f2 ← vec_set f1 j e_from_i;
  Some (Chain f2 (e_to st) s4 (gen st)).

(** Lines 38-52 and 120-135: the generator and the edge hash set.
    [std::uniform_int_distribution<>(0, m-1)] requires [0 ≤ m-1]. *)
Definition init (Re_from Re_to : list Z) (seed rd : Z) : option chain :=
  let m := length Re_from in
  if bool_decide (m = 0) then None
  else
    s ← build_set Re_from Re_to m;
    Some (Chain Re_from Re_to s (mt19937 (effective_seed seed rd))).

(** The two indices a step draws, and the generator after the draws. *)
Definition proposal (m : Z) (g : G) : Z * Z * G :=
  let r1 := randint 0 (m - 1) g in
  let r2 := randint 0 (m - 1) r1.2 in
  (r1.1, r2.1, r2.2).

(** What every step keeps of the caller's vectors: the [to] column is the
    caller's, the [from] column read as [int]s a rearrangement of the
    caller's read as [int]s. *)
Record shape (Re_from Re_to : list Z) (st : chain) : Prop := {
  shape_to : e_to st = Re_to;
  shape_from : to_int <$> e_from st ≡ₚ to_int <$> Re_from;
}.

(** The hash set mirrors a duplicate-free edge list, as the code reads it. *)
Record indexed (st : chain) : Prop := {
  indexed_set : edgeSet st = list_to_set (seen st);
  indexed_nodup : NoDup (seen st);
}.

(** ** The uniform sampler *)

(** One iteration of the loop at lines 61-89. *)
Definition simple_body (m : Z) (swap_p : float) (st : chain) : option chain :=
  let r1 := randint 0 (m - 1) (gen st) in
  let i := r1.1 in
  let r2 := randint 0 (m - 1) r1.2 in
  let j := r2.1 in
  let st := with_gen r2.2 st in
  if bool_decide (i = j) then Some st
  else
    '(e_from_i, e_to_i, e_from_j, e_to_j) ← endpoints st i j;
    if negb (found (edgeSet st) (e_from_i, e_to_j))
       && negb (found (edgeSet st) (e_from_j, e_to_i))
    then
      let r3 := randu (gen st) in
      let u := r3.1 in
      let st := with_gen r3.2 st in
      if PrimFloat.ltb u swap_p
      then commit i j e_from_i e_to_i e_from_j e_to_j st
      else Some st
    else Some st.

(** The state after [k] iterations. *)
Fixpoint simple_loop (m : Z) (swap_p : float) (k : nat) (st : chain)
    : option chain :=
  match k with
  | O => Some st
  | S k' => st' ← simple_loop m swap_p k' st; simple_body m swap_p st'
  end.

Definition simple_run (Re_from Re_to : list Z) (k : nat) (swap_p : float)
    (seed rd : Z) : option chain :=
  st ← init Re_from Re_to seed rd;
  simple_loop (Z.of_nat (length Re_from)) swap_p k st.

(** The returned list: [edges["from"]], [edges["to"]]. *)
Record simple_result := SimpleResult {
  sr_from : list Z;
  sr_to : list Z;
}.

Definition simple_swap_n (Re_from Re_to : list Z) (n : nat) (swap_p : float)
    (seed rd : Z) : option simple_result :=
  st ← simple_run Re_from Re_to n swap_p seed rd;
  Some (SimpleResult (e_from st) (e_to st)).

(** ** The weighted sampler *)

(** The six diagnostic columns (lines 153-158). *)
Record diag := Diag {
  same_edge : list bool;
  is_checkerboard : list bool;
  is_not_struct_zeros : list bool;
  can_swap : list bool;
  did_swap : list bool;
  swap_ps : list float;
}.

(** [Rcpp::LogicalVector v (n)] and [Rcpp::NumericVector v (n)] are filled
    with [FALSE] and [0]. *)
Definition diag_init (n : nat) : diag :=
  Diag (replicate n false) (replicate n false) (replicate n false)
       (replicate n false) (replicate n false) (replicate n 0%float).

Definition set_same_edge (k : nat) (v : bool) (d : diag) : diag :=
  Diag (<[k:=v]> (same_edge d)) (is_checkerboard d) (is_not_struct_zeros d)
       (can_swap d) (did_swap d) (swap_ps d).
Definition set_is_checkerboard (k : nat) (v : bool) (d : diag) : diag :=
  Diag (same_edge d) (<[k:=v]> (is_checkerboard d)) (is_not_struct_zeros d)
       (can_swap d) (did_swap d) (swap_ps d).
Definition set_is_not_struct_zeros (k : nat) (v : bool) (d : diag) : diag :=
  Diag (same_edge d) (is_checkerboard d) (<[k:=v]> (is_not_struct_zeros d))
       (can_swap d) (did_swap d) (swap_ps d).
Definition set_can_swap (k : nat) (v : bool) (d : diag) : diag :=
  Diag (same_edge d) (is_checkerboard d) (is_not_struct_zeros d)
       (<[k:=v]> (can_swap d)) (did_swap d) (swap_ps d).
Definition set_did_swap (k : nat) (v : bool) (d : diag) : diag :=
  Diag (same_edge d) (is_checkerboard d) (is_not_struct_zeros d)
       (can_swap d) (<[k:=v]> (did_swap d)) (swap_ps d).
Definition set_swap_ps (k : nat) (v : float) (d : diag) : diag :=
  Diag (same_edge d) (is_checkerboard d) (is_not_struct_zeros d)
       (can_swap d) (did_swap d) (<[k:=v]> (swap_ps d)).

(** The condition of the [if] at lines 174-175. *)
Definition checkerboard_fails (es : gset (Z * Z))
    (e_from_i e_to_i e_from_j e_to_j : Z) : bool :=
  found es (e_from_i, e_to_j) || found es (e_from_j, e_to_i).

(** The condition of the [if] at lines 180-181. The first lookup is in
    [zeroSet] and is compared with [edgeSet.end()]: the past-the-end iterator
    of an [unordered_set] holds no node (libstdc++, libc++), so the comparison
    says whether [zeroSet] holds the pair. The second lookup is in [edgeSet]. *)
Definition struct_zero_hit (zs es : gset (Z * Z))
    (e_from_i e_to_i e_from_j e_to_j : Z) : bool :=
  found zs (e_from_i, e_to_j) || found es (e_from_j, e_to_i).

(** Lines 188-190. *)
Definition ratio (w : Z → Z → float) (e_from_i e_to_i e_from_j e_to_j : Z)
    : float :=
  let w_pre := PrimFloat.mul (w e_from_i e_to_i) (w e_from_j e_to_j) in
  let w_post := PrimFloat.mul (w e_from_i e_to_j) (w e_from_j e_to_i) in
  PrimFloat.div w_post w_pre.

(** One iteration of the loop at lines 160-204, for the loop counter [k]. *)
Definition swap_body (m : Z) (w : Z → Z → float) (zeroSet : gset (Z * Z))
    (k : nat) (s : chain * diag) : option (chain * diag) :=
  let st := s.1 in
  let dg := s.2 in
  let r1 := randint 0 (m - 1) (gen st) in
  let i := r1.1 in
  let r2 := randint 0 (m - 1) r1.2 in
  let j := r2.1 in
  let st := with_gen r2.2 st in
  if bool_decide (i = j) then Some (st, set_same_edge k true dg)
  else
    '(e_from_i, e_to_i, e_from_j, e_to_j) ← endpoints st i j;
    if checkerboard_fails (edgeSet st) e_from_i e_to_i e_from_j e_to_j
    then Some (st, set_is_checkerboard k false dg)
    else if struct_zero_hit zeroSet (edgeSet st) e_from_i e_to_i e_from_j e_to_j
    then Some (st, set_is_not_struct_zeros k false dg)
    else
      let dg := set_can_swap k true dg in
      let swap_p := ratio w e_from_i e_to_i e_from_j e_to_j in
      let dg := set_swap_ps k swap_p dg in
      let r3 := randu (gen st) in
      let u := r3.1 in
      let st := with_gen r3.2 st in
      if PrimFloat.ltb u swap_p
      then
        let dg := set_did_swap k true dg in
        st' ← commit i j e_from_i e_to_i e_from_j e_to_j st;
        Some (st', dg)
      else Some (st, dg).

(** The state after iterations [0 .. k-1]. *)
Fixpoint swap_loop (m : Z) (w : Z → Z → float) (zeroSet : gset (Z * Z))
    (k : nat) (s : chain * diag) : option (chain * diag) :=
  match k with
  | O => Some s
  | S k' => s' ← swap_loop m w zeroSet k' s; swap_body m w zeroSet k' s'
  end.

(** Lines 138-141: the loop over the zero vectors runs to [m], the number
    of edges. *)
Definition zero_set (m : nat) (Rz_from Rz_to : list Z) : option (gset (Z * Z)) :=
  build_set Rz_from Rz_to m.

(** The state after [k] iterations of a call that asked for [n]. *)
Definition swap_run (Re_from Re_to : list Z) (n : nat) (w : Z → Z → float)
    (Rz_from Rz_to : list Z) (seed rd : Z) (k : nat) : option (chain * diag) :=
  st ← init Re_from Re_to seed rd;
  zeroSet ← zero_set (length Re_from) Rz_from Rz_to;
  swap_loop (Z.of_nat (length Re_from)) w zeroSet k (st, diag_init n).

(** The returned list. *)
Record swap_result := SwapResult {
  wr_from : list Z;
  wr_to : list Z;
  wr_diag : diag;
}.

Definition swap_n (Re_from Re_to : list Z) (n : nat) (w : Z → Z → float)
    (Rz_from Rz_to : list Z) (seed rd : Z) : option swap_result :=
  s ← swap_run Re_from Re_to n w Rz_from Rz_to seed rd n;
  Some (SwapResult (e_from s.1) (e_to s.1) s.2).

End Sampler.

(** Row [k] of the six columns, and columns of [n] rows each. *)
Definition row (d : diag) (k : nat)
    : option bool * option bool * option bool * option bool * option bool
      * option float :=
  (same_edge d !! k, is_checkerboard d !! k, is_not_struct_zeros d !! k,
   can_swap d !! k, did_swap d !! k, swap_ps d !! k).

Definition columns_of_length (n : nat) (d : diag) : Prop :=
  length (same_edge d) = n ∧ length (is_checkerboard d) = n ∧
  length (is_not_struct_zeros d) = n ∧ length (can_swap d) = n ∧
  length (did_swap d) = n ∧ length (swap_ps d) = n.

(** How many of the four conditions [same_edge], [not is_checkerboard],
    [not is_not_struct_zeros], [can_swap] hold in row [k]. *)
Definition conditions_holding (d : diag) (k : nat) : option nat :=
  se ← same_edge d !! k;
  cb ← is_checkerboard d !! k;
  nz ← is_not_struct_zeros d !! k;
  cs ← can_swap d !! k;
  Some (Nat.b2n se + Nat.b2n (negb cb) + Nat.b2n (negb nz) + Nat.b2n cs).

(** ** A replaying generator

    To run the samplers on concrete inputs: the generator replays a tape of
    raw words, shifted by the seed. An integer draw reduces a word into the
    requested range, a real draw maps it to a quarter in [0, 1). An exhausted
    tape yields the lower bound. *)

Module Replay.

Definition unit_of_word (x : Z) : float :=
  match (x mod 4)%Z with
  | 0%Z => 0%float
  | 1%Z => 0.25%float
  | 2%Z => 0.5%float
  | _ => 0.75%float
  end.

Definition generator (tape : list Z) : Generator := {|
  G := list Z;
  mt19937 := λ seed, (λ x, (x + seed)%Z) <$> tape;
  randint := λ a b g,
    match g with
    | [] => (a, [])
    | x :: g' => ((a + x mod (b - a + 1))%Z, g')
    end;
  randu := λ g,
    match g with
    | [] => (0%float, [])
    | x :: g' => (unit_of_word x, g')
    end;
|}.

End Replay.

(** The weight matrix with every entry one. *)
Definition ones : Z → Z → float := λ _ _, 1%float.

(** * Properties *)

Lemma replay_unit_range x :
  PrimFloat.leb 0 (Replay.unit_of_word x) = true ∧
  PrimFloat.ltb (Replay.unit_of_word x) 1 = true.
Proof.
  unfold Replay.unit_of_word. repeat case_match; split; reflexivity.
Qed.

(** The replaying generator keeps the distributions' ranges. *)
Lemma replay_laws tape : GeneratorLaws (Replay.generator tape).
Proof.
  split.
  - intros a b [|x g] Hab; simpl; [lia|].
    pose proof (Z.mod_pos_bound x (b - a + 1) ltac:(lia)). lia.
  - intros [|x g]; simpl; [split; reflexivity|apply replay_unit_range].
Qed.

(** ** Vectors and the hash-set builder *)

Lemma vec_get_Some {A} (v : list A) (i : Z) (x : A) :
  vec_get v i = Some x ↔ (0 ≤ i)%Z ∧ v !! Z.to_nat i = Some x.
Proof.
  unfold vec_get. case_bool_decide; split; try tauto; try discriminate.
Qed.

Lemma vec_get_in_range {A} (v : list A) (i : Z) :
  (0 ≤ i < Z.of_nat (length v))%Z → is_Some (vec_get v i).
Proof.
  intros Hi. unfold vec_get. rewrite bool_decide_eq_true_2 by lia.
  apply lookup_lt_is_Some. lia.
Qed.

Lemma vec_set_in_range {A} (v : list A) (i : Z) (x : A) :
  (0 ≤ i < Z.of_nat (length v))%Z →
  vec_set v i x = Some (<[Z.to_nat i := x]> v).
Proof. intros Hi. unfold vec_set. by rewrite bool_decide_eq_true_2. Qed.

Lemma found_true (s : gset (Z * Z)) p : found s p = true ↔ p ∈ s.
Proof. unfold found. apply bool_decide_eq_true. Qed.

Lemma found_false (s : gset (Z * Z)) p : found s p = false ↔ p ∉ s.
Proof. unfold found. apply bool_decide_eq_false. Qed.

(** The conversion keeps what fits an [int], lands in the range of [int],
    and does nothing to its own results. *)
Lemma to_int_in_range x : in_int_range x → to_int x = x.
Proof. intros Hx. unfold to_int. by rewrite bool_decide_eq_true_2. Qed.

Lemma to_int_range x : in_int_range (to_int x).
Proof.
  unfold to_int, in_int_range. case_bool_decide; [done|].
  unfold int_min, int_max. lia.
Qed.

Lemma to_int_idemp x : to_int (to_int x) = to_int x.
Proof. apply to_int_in_range, to_int_range. Qed.

Lemma to_int_fmap_id (l : list Z) : Forall in_int_range l → to_int <$> l = l.
Proof.
  induction 1 as [|x l Hx _ IH]; [done|].
  by rewrite fmap_cons, IH, to_int_in_range.
Qed.

Lemma to_int_lookup_fixed (l : list Z) (i : nat) (a : Z) :
  (to_int <$> l) !! i = Some a → to_int a = a.
Proof.
  rewrite list_lookup_fmap. destruct (l !! i); simpl; [|done].
  intros [= <-]. apply to_int_idemp.
Qed.

(** The builder inserts the first [m] pairs of the two vectors, converted to
    [int], and is defined exactly when both vectors have that many entries. *)
Lemma build_set_take (from to : list Z) (m : nat) :
  m ≤ length from → m ≤ length to →
  build_set from to m
    = Some (list_to_set (take m (zip (to_int <$> from) (to_int <$> to)))).
Proof.
  induction m as [|i IH]; intros Hf Ht; simpl.
  - done.
  - rewrite IH by lia. simpl.
    destruct (lookup_lt_is_Some_2 from i ltac:(lia)) as [a Ha].
    destruct (lookup_lt_is_Some_2 to i ltac:(lia)) as [b Hb].
    rewrite Ha, Hb. simpl. f_equal.
    assert (Hz : zip (to_int <$> from) (to_int <$> to) !! i
                 = Some (to_int a, to_int b)).
    { apply lookup_zip_with_Some. exists (to_int a), (to_int b).
      rewrite !list_lookup_fmap, Ha, Hb. done. }
    rewrite (take_S_r _ _ _ Hz), list_to_set_app_L. simpl. set_solver.
Qed.

Lemma build_set_zip (from to : list Z) :
  length to = length from →
  build_set from to (length from)
    = Some (list_to_set (zip (to_int <$> from) (to_int <$> to))).
Proof.
  intros Hlen. rewrite build_set_take by lia.
  rewrite take_ge; [done|]. rewrite length_zip_with, !length_fmap. lia.
Qed.

Lemma build_set_short_l (from to : list Z) (m : nat) :
  length from < m → build_set from to m = None.
Proof.
  induction m as [|i IH]; intros Hm; [lia|]. simpl.
  destruct (build_set from to i); simpl; [|done].
  by rewrite (lookup_ge_None_2 from i) by lia.
Qed.

(** Replacing one slot of a duplicate-free list by a value the list does not
    hold keeps it duplicate-free, and moves the set of its elements by that
    one exchange. *)
Lemma replace_slot_fresh (l : list (Z * Z)) (i : nat) (x y : Z * Z) :
  NoDup l → l !! i = Some x → y ∉ l →
  NoDup (<[i:=y]> l) ∧
  list_to_set (<[i:=y]> l) =@{gset (Z * Z)} {[ y ]} ∪ (list_to_set l ∖ {[ x ]}).
Proof.
  revert i. induction l as [|z l IH]; intros i Hnd Hi Hy; [done|].
  apply NoDup_cons in Hnd as [Hz Hnd].
  apply not_elem_of_cons in Hy as [Hyz Hy].
  destruct i as [|i]; simpl in *.
  - injection Hi as ->. split.
    + by apply NoDup_cons.
    + assert (x ∉ (list_to_set l : gset (Z * Z))) by (by rewrite elem_of_list_to_set).
      set_solver.
  - destruct (IH i Hnd Hi Hy) as [IH1 IH2]. split.
    + apply NoDup_cons. split; [|done].
      intros Hin. apply list_elem_of_lookup in Hin as [i' Hi'].
      destruct (decide (i = i')) as [<-|Hne].
      * rewrite list_lookup_insert_eq in Hi' by (by eapply lookup_lt_Some).
        congruence.
      * rewrite list_lookup_insert_ne in Hi' by done.
        apply Hz. eapply list_elem_of_lookup_2, Hi'.
    + rewrite IH2.
      assert (z ≠ x).
      { intros ->. apply Hz. eapply list_elem_of_lookup_2, Hi. }
      set_solver.
Qed.

Lemma zip_insert_l (l k : list Z) (i : nat) (x y : Z) :
  k !! i = Some y → zip (<[i:=x]> l) k = <[i:=(x, y)]> (zip l k).
Proof.
  intros Hk. rewrite (insert_zip_with pair l k i x y).
  by rewrite (list_insert_id k i y).
Qed.

(** ** What every step keeps *)

Section Invariants.
Context {R : Generator} {L : GeneratorLaws R}.

Lemma shape_with_gen Re_from Re_to g st :
  shape Re_from Re_to st → shape Re_from Re_to (with_gen g st).
Proof. by intros []. Qed.

Lemma indexed_with_gen g st : indexed st → indexed (with_gen g st).
Proof. by intros []. Qed.

Lemma read_Some (v : list Z) (i : Z) (a : Z) :
  to_int <$> vec_get v i = Some a ↔
  (0 ≤ i)%Z ∧ (to_int <$> v) !! Z.to_nat i = Some a.
Proof.
  unfold vec_get. rewrite list_lookup_fmap.
  case_bool_decide; split; try tauto; try discriminate.
Qed.

(** The endpoints are the entries of the two slots, read as [int]s. *)
Lemma endpoints_Some st i j a b c d :
  endpoints st i j = Some (a, b, c, d) ↔
  ((0 ≤ i)%Z ∧ (to_int <$> e_from st) !! Z.to_nat i = Some a ∧
   (to_int <$> e_to st) !! Z.to_nat i = Some b) ∧
  ((0 ≤ j)%Z ∧ (to_int <$> e_from st) !! Z.to_nat j = Some c ∧
   (to_int <$> e_to st) !! Z.to_nat j = Some d).
Proof.
  unfold endpoints. split.
  - intros H.
    destruct (to_int <$> vec_get (e_from st) i) as [a'|] eqn:Ha;
      simpl in H; [|done].
    destruct (to_int <$> vec_get (e_to st) i) as [b'|] eqn:Hb;
      simpl in H; [|done].
    destruct (to_int <$> vec_get (e_from st) j) as [c'|] eqn:Hc;
      simpl in H; [|done].
    destruct (to_int <$> vec_get (e_to st) j) as [d'|] eqn:Hd;
      simpl in H; [|done].
    injection H as -> -> -> ->.
    apply read_Some in Ha, Hb, Hc, Hd. tauto.
  - intros [(Hi & Ha & Hb) (Hj & Hc & Hd)].
    rewrite (proj2 (read_Some _ _ _) (conj Hi Ha)). simpl.
    rewrite (proj2 (read_Some _ _ _) (conj Hi Hb)). simpl.
    rewrite (proj2 (read_Some _ _ _) (conj Hj Hc)). simpl.
    by rewrite (proj2 (read_Some _ _ _) (conj Hj Hd)).
Qed.

Lemma endpoints_with_gen g st i j :
  endpoints (with_gen g st) i j = endpoints st i j.
Proof. done. Qed.

(** Both indices in range: the four reads are defined. *)
Lemma endpoints_in_range st i j :
  length (e_to st) = length (e_from st) →
  (0 ≤ i < Z.of_nat (length (e_from st)))%Z →
  (0 ≤ j < Z.of_nat (length (e_from st)))%Z →
  is_Some (endpoints st i j).
Proof.
  intros Hlen Hi Hj. unfold endpoints.
  destruct (vec_get_in_range (e_from st) i Hi) as [a ->].
  destruct (vec_get_in_range (e_to st) i ltac:(lia)) as [b ->].
  destruct (vec_get_in_range (e_from st) j Hj) as [c ->].
  destruct (vec_get_in_range (e_to st) j ltac:(lia)) as [d ->].
  by eexists.
Qed.

Lemma endpoints_edges st i j a b c d :
  endpoints st i j = Some (a, b, c, d) →
  seen st !! Z.to_nat i = Some (a, b) ∧ seen st !! Z.to_nat j = Some (c, d).
Proof.
  intros [(_ & Ha & Hb) (_ & Hc & Hd)]%endpoints_Some.
  unfold seen. split; apply lookup_zip_with_Some; eauto.
Qed.

(** Where the entries fit an [int], the endpoints are the entries. *)
Lemma endpoints_raw st i j a b c d :
  Forall in_int_range (e_from st) → Forall in_int_range (e_to st) →
  endpoints st i j = Some (a, b, c, d) →
  (e_from st !! Z.to_nat i = Some a ∧ e_to st !! Z.to_nat i = Some b) ∧
  (e_from st !! Z.to_nat j = Some c ∧ e_to st !! Z.to_nat j = Some d).
Proof.
  intros Hf Ht [(_ & Ha & Hb) (_ & Hc & Hd)]%endpoints_Some.
  by rewrite (to_int_fmap_id _ Hf) in Ha, Hc;
     rewrite (to_int_fmap_id _ Ht) in Hb, Hd.
Qed.

Lemma seen_edges st :
  Forall in_int_range (e_from st) → Forall in_int_range (e_to st) →
  seen st = edges st.
Proof.
  intros Hf Ht. unfold seen, edges.
  by rewrite (to_int_fmap_id _ Hf), (to_int_fmap_id _ Ht).
Qed.

(** The commit, once the four endpoints have been read: it is defined, it
    writes [e_from_j] to slot [i] and [e_from_i] to slot [j]. *)
Lemma commit_Some st i j a b c d :
  endpoints st i j = Some (a, b, c, d) →
  commit i j a b c d st =
    Some (Chain (<[Z.to_nat j := a]> (<[Z.to_nat i := c]> (e_from st)))
                (e_to st)
                ((({[ (c, b) ]} ∪ ({[ (a, d) ]} ∪ edgeSet st))
                    ∖ {[ (a, b) ]}) ∖ {[ (c, d) ]})
                (gen st)).
Proof.
  intros [(Hi & Ha & _) (Hj & Hc & _)]%endpoints_Some.
  apply lookup_lt_Some in Ha, Hc. rewrite length_fmap in Ha, Hc.
  unfold commit. rewrite vec_set_in_range by lia. simpl.
  rewrite vec_set_in_range by (rewrite length_insert; lia). done.
Qed.

(** The [from] column after a commit, read as [int]s. *)
Lemma commit_from_seen st i j a b c d :
  endpoints st i j = Some (a, b, c, d) →
  to_int <$> <[Z.to_nat j := a]> (<[Z.to_nat i := c]> (e_from st))
    = <[Z.to_nat j := a]> (<[Z.to_nat i := c]> (to_int <$> e_from st)).
Proof.
  intros [(_ & Ha & _) (_ & Hc & _)]%endpoints_Some.
  rewrite !list_fmap_insert.
  by rewrite (to_int_lookup_fixed _ _ _ Ha), (to_int_lookup_fixed _ _ _ Hc).
Qed.

Lemma commit_shape Re_from Re_to st i j a b c d st' :
  shape Re_from Re_to st →
  endpoints st i j = Some (a, b, c, d) →
  commit i j a b c d st = Some st' →
  shape Re_from Re_to st'.
Proof.
  intros [Hto Hfrom] He Hc. rewrite (commit_Some _ _ _ _ _ _ _ He) in Hc.
  injection Hc as <-. split; simpl; [done|].
  rewrite (commit_from_seen _ _ _ _ _ _ _ He).
  apply endpoints_Some in He as [(_ & Ha & _) (_ & Hc & _)].
  by rewrite (Permutation_insert_swap _ _ _ _ _ Ha Hc).
Qed.

Lemma commit_indexed st i j a b c d st' :
  indexed st →
  i ≠ j →
  endpoints st i j = Some (a, b, c, d) →
  (a, d) ∉ edgeSet st → (c, b) ∉ edgeSet st →
  commit i j a b c d st = Some st' →
  indexed st'.
Proof.
  intros [Hset Hnd] Hij He Had Hcb Hc.
  rewrite (commit_Some _ _ _ _ _ _ _ He) in Hc. injection Hc as <-.
  destruct (endpoints_edges _ _ _ _ _ _ _ He) as [Hi Hj].
  pose proof (commit_from_seen _ _ _ _ _ _ _ He) as Hfrom.
  apply endpoints_Some in He as [(Hi0 & Ha & Hb) (Hj0 & Hc & Hd)].
  rewrite Hset in Had, Hcb. rewrite elem_of_list_to_set in Had, Hcb.
  assert (Hne : Z.to_nat i ≠ Z.to_nat j) by lia.
  destruct (replace_slot_fresh _ _ _ _ Hnd Hi Hcb) as [Hnd1 Hs1].
  assert (Hj1 : <[Z.to_nat i := (c, b)]> (seen st) !! Z.to_nat j = Some (c, d)).
  { by rewrite list_lookup_insert_ne. }
  assert (Had1 : (a, d) ∉ <[Z.to_nat i := (c, b)]> (seen st)).
  { intros Hin. apply list_elem_of_lookup in Hin as [i' Hi'].
    destruct (decide (Z.to_nat i = i')) as [<-|Hne'].
    - rewrite list_lookup_insert_eq in Hi' by (by eapply lookup_lt_Some).
      injection Hi' as <- <-. apply Had. eapply list_elem_of_lookup_2, Hi.
    - rewrite list_lookup_insert_ne in Hi' by done.
      apply Had. eapply list_elem_of_lookup_2, Hi'. }
  destruct (replace_slot_fresh _ _ _ _ Hnd1 Hj1 Had1) as [Hnd2 Hs2].
  assert (Hseen :
    zip (to_int <$> <[Z.to_nat j := a]> (<[Z.to_nat i := c]> (e_from st)))
        (to_int <$> e_to st)
    = <[Z.to_nat j := (a, d)]> (<[Z.to_nat i := (c, b)]> (seen st))).
  { rewrite Hfrom. unfold seen.
    rewrite (zip_insert_l _ _ _ _ d) by done.
    by rewrite (zip_insert_l _ _ _ _ b) by done. }
  split; unfold seen at 1; simpl; rewrite Hseen; [|done].
  rewrite Hs2, Hs1, Hset.
  assert ((a, b) ∈ (list_to_set (seen st) : gset (Z * Z))).
  { rewrite elem_of_list_to_set. eapply list_elem_of_lookup_2, Hi. }
  assert ((c, d) ∈ (list_to_set (seen st) : gset (Z * Z))).
  { rewrite elem_of_list_to_set. eapply list_elem_of_lookup_2, Hj. }
  assert ((a, d) ∉ (list_to_set (seen st) : gset (Z * Z))).
  { by rewrite elem_of_list_to_set. }
  assert ((c, b) ∉ (list_to_set (seen st) : gset (Z * Z))).
  { by rewrite elem_of_list_to_set. }
  set_solver.
Qed.

(** Closes the cases of a step in which only the generator moved. *)
Ltac keep_gen :=
  simpl; split;
  [ repeat apply shape_with_gen; assumption
  | intros ?; repeat apply indexed_with_gen; assumption ].

Lemma proposal_range m g :
  (0 < m)%Z →
  (0 ≤ (proposal m g).1.1 < m)%Z ∧ (0 ≤ (proposal m g).1.2 < m)%Z.
Proof.
  intros Hm. unfold proposal. simpl.
  pose proof (randint_range 0 (m - 1) g ltac:(lia)).
  pose proof (randint_range 0 (m - 1) (randint 0 (m - 1) g).2 ltac:(lia)).
  lia.
Qed.

Lemma shape_lengths Re_from Re_to st :
  length Re_to = length Re_from → shape Re_from Re_to st →
  length (e_from st) = length Re_from ∧ length (e_to st) = length (e_from st).
Proof.
  intros Hlen [Hto Hfrom]. apply Permutation_length in Hfrom.
  rewrite !length_fmap in Hfrom. rewrite Hto. lia.
Qed.

(** In a well-shaped state the endpoints of the proposal can be read. *)
Lemma proposal_endpoints Re_from Re_to st g :
  length Re_to = length Re_from → Re_from ≠ [] →
  shape Re_from Re_to st →
  let m := Z.of_nat (length Re_from) in
  is_Some (endpoints st (proposal m g).1.1 (proposal m g).1.2).
Proof.
  intros Hlen Hne Hsh m.
  destruct (shape_lengths _ _ _ Hlen Hsh) as [Hf Ht].
  assert (0 < m)%Z by (destruct Re_from; [done|simpl in *; lia]).
  destruct (proposal_range m g) as [Hi Hj]; [done|].
  apply endpoints_in_range; [done|lia|lia].
Qed.

(** One iteration of the uniform sampler is defined and keeps the shape,
    and the index when it held. *)
Lemma simple_body_inv Re_from Re_to swap_p st :
  length Re_to = length Re_from → Re_from ≠ [] →
  shape Re_from Re_to st →
  ∃ st', simple_body (Z.of_nat (length Re_from)) swap_p st = Some st' ∧
         shape Re_from Re_to st' ∧ (indexed st → indexed st').
Proof.
  intros Hlen Hne Hsh.
  pose proof (proposal_endpoints _ _ _ (gen st) Hlen Hne Hsh) as He.
  unfold proposal in He. simpl in He.
  unfold simple_body. cbv zeta.
  set (r1 := randint 0 _ (gen st)) in *. set (r2 := randint 0 _ r1.2) in *.
  case_bool_decide as Hij.
  { eexists. split; [done|]. keep_gen. }
  rewrite endpoints_with_gen.
  destruct He as [[[[a b] c] d] He]. rewrite He. simpl.
  destruct (found _ (a, d)) eqn:Had; simpl.
  { eexists. split; [done|]. keep_gen. }
  destruct (found _ (c, b)) eqn:Hcb; simpl.
  { eexists. split; [done|]. keep_gen. }
  destruct (PrimFloat.ltb _ _).
  2:{ eexists. split; [done|]. keep_gen. }
  apply found_false in Had, Hcb.
  rewrite (commit_Some (with_gen _ (with_gen _ st)) _ _ _ _ _ _ He).
  eexists. split; [done|]. split.
  - eapply (commit_shape _ _ (with_gen (randu r2.2).2 (with_gen r2.2 st)));
      [by do 2 apply shape_with_gen|exact He|by apply commit_Some].
  - intros Hidx.
    eapply (commit_indexed (with_gen (randu r2.2).2 (with_gen r2.2 st)));
      [by do 2 apply indexed_with_gen|exact Hij|exact He|done|done
      |by apply commit_Some].
Qed.

Lemma simple_loop_inv Re_from Re_to swap_p k st :
  length Re_to = length Re_from → Re_from ≠ [] →
  shape Re_from Re_to st →
  ∃ st', simple_loop (Z.of_nat (length Re_from)) swap_p k st = Some st' ∧
         shape Re_from Re_to st' ∧ (indexed st → indexed st').
Proof.
  intros Hlen Hne Hsh. induction k as [|k (st1 & Hk & Hsh1 & Hidx1)]; simpl.
  - eauto.
  - rewrite Hk. simpl.
    destruct (simple_body_inv _ _ swap_p st1 Hlen Hne Hsh1)
      as (st2 & Hb & Hsh2 & Hidx2).
    eauto 6.
Qed.

(** One iteration of the weighted sampler, likewise. *)
Lemma swap_body_inv Re_from Re_to w zeroSet k s :
  length Re_to = length Re_from → Re_from ≠ [] →
  shape Re_from Re_to s.1 →
  ∃ s', swap_body (Z.of_nat (length Re_from)) w zeroSet k s = Some s' ∧
        shape Re_from Re_to s'.1 ∧ (indexed s.1 → indexed s'.1).
Proof.
  intros Hlen Hne Hsh. destruct s as [st dg]. simpl in Hsh.
  pose proof (proposal_endpoints _ _ _ (gen st) Hlen Hne Hsh) as He.
  unfold proposal in He. simpl in He.
  unfold swap_body. cbv zeta. simpl.
  set (r1 := randint 0 _ (gen st)) in *. set (r2 := randint 0 _ r1.2) in *.
  case_bool_decide as Hij.
  { eexists. split; [done|]. keep_gen. }
  rewrite endpoints_with_gen.
  destruct He as [[[[a b] c] d] He]. rewrite He. simpl.
  unfold checkerboard_fails, struct_zero_hit.
  destruct (found (edgeSet st) (a, d)) eqn:Had; simpl.
  { eexists. split; [done|]. keep_gen. }
  destruct (found (edgeSet st) (c, b)) eqn:Hcb; simpl.
  { eexists. split; [done|]. keep_gen. }
  rewrite orb_false_r.
  destruct (found zeroSet (a, d)).
  { eexists. split; [done|]. keep_gen. }
  destruct (PrimFloat.ltb _ _).
  2:{ eexists. split; [done|]. keep_gen. }
  apply found_false in Had, Hcb.
  rewrite (commit_Some (with_gen _ (with_gen _ st)) _ _ _ _ _ _ He). simpl.
  eexists. split; [done|]. simpl. split.
  - eapply (commit_shape _ _ (with_gen (randu r2.2).2 (with_gen r2.2 st)));
      [by do 2 apply shape_with_gen|exact He|by apply commit_Some].
  - intros Hidx.
    eapply (commit_indexed (with_gen (randu r2.2).2 (with_gen r2.2 st)));
      [by do 2 apply indexed_with_gen|exact Hij|exact He|done|done
      |by apply commit_Some].
Qed.

Lemma swap_loop_inv Re_from Re_to w zeroSet k s :
  length Re_to = length Re_from → Re_from ≠ [] →
  shape Re_from Re_to s.1 →
  ∃ s', swap_loop (Z.of_nat (length Re_from)) w zeroSet k s = Some s' ∧
        shape Re_from Re_to s'.1 ∧ (indexed s.1 → indexed s'.1).
Proof.
  intros Hlen Hne Hsh. induction k as [|k (s1 & Hk & Hsh1 & Hidx1)]; simpl.
  - eauto.
  - rewrite Hk. simpl.
    destruct (swap_body_inv _ _ w zeroSet k s1 Hlen Hne Hsh1)
      as (s2 & Hb & Hsh2 & Hidx2).
    eauto 6.
Qed.

(** The initial state. *)
Lemma init_Some Re_from Re_to seed rd :
  length Re_to = length Re_from → Re_from ≠ [] →
  init Re_from Re_to seed rd =
    Some (Chain Re_from Re_to
                (list_to_set (zip (to_int <$> Re_from) (to_int <$> Re_to)))
                (mt19937 (effective_seed seed rd))).
Proof.
  intros Hlen Hne. unfold init.
  rewrite bool_decide_eq_false_2 by (by destruct Re_from).
  by rewrite build_set_zip.
Qed.

Lemma init_inv Re_from Re_to seed rd :
  length Re_to = length Re_from → Re_from ≠ [] →
  ∃ st, init Re_from Re_to seed rd = Some st ∧ shape Re_from Re_to st ∧
        (NoDup (zip (to_int <$> Re_from) (to_int <$> Re_to)) → indexed st).
Proof.
  intros Hlen Hne. rewrite init_Some by done.
  eexists. split; [done|]. split; [by split|]. intros Hnd. by split.
Qed.

(** The state after any number of iterations of either sampler. *)
Lemma simple_run_inv Re_from Re_to k swap_p seed rd :
  length Re_to = length Re_from → Re_from ≠ [] →
  ∃ st, simple_run Re_from Re_to k swap_p seed rd = Some st ∧
        shape Re_from Re_to st ∧
        (NoDup (zip (to_int <$> Re_from) (to_int <$> Re_to)) → indexed st).
Proof.
  intros Hlen Hne.
  destruct (init_inv Re_from Re_to seed rd Hlen Hne) as (st0 & H0 & Hsh0 & Hidx0).
  destruct (simple_loop_inv _ _ swap_p k st0 Hlen Hne Hsh0) as (st & Hk & Hsh & Hidx).
  exists st. unfold simple_run. rewrite H0. simpl. eauto.
Qed.

Lemma swap_run_inv Re_from Re_to n w Rz_from Rz_to seed rd k :
  length Re_to = length Re_from → Re_from ≠ [] →
  length Re_from ≤ length Rz_from → length Re_from ≤ length Rz_to →
  ∃ s, swap_run Re_from Re_to n w Rz_from Rz_to seed rd k = Some s ∧
       shape Re_from Re_to s.1 ∧
       (NoDup (zip (to_int <$> Re_from) (to_int <$> Re_to)) → indexed s.1).
Proof.
  intros Hlen Hne Hzf Hzt.
  destruct (init_inv Re_from Re_to seed rd Hlen Hne) as (st0 & H0 & Hsh0 & Hidx0).
  unfold swap_run, zero_set. rewrite H0. simpl.
  rewrite build_set_take by done. simpl.
  destruct (swap_loop_inv Re_from Re_to w
              (list_to_set (take (length Re_from)
                 (zip (to_int <$> Rz_from) (to_int <$> Rz_to)))) k
              (st0, diag_init n) Hlen Hne Hsh0) as (s & Hk & Hsh & Hidx).
  exists s. eauto.
Qed.

End Invariants.

(** ** Self-loops *)

(** C5, as stated, fails. The input [(1,2), (3,1)] has no self-loop; the
    proposal [i = 0], [j = 1] passes the checkerboard test (neither [(1,1)]
    nor [(3,2)] is an edge) and its commit leaves the self-loop [(1,1)] in
    slot 1, in the uniform and in the weighted sampler. *)
Lemma self_loop_created :
  let R := Replay.generator [0; 1; 0]%Z in
  (∀ v : Z, (v, v) ∉ zip [1; 3]%Z [2; 1]%Z) ∧
  simple_swap_n [1; 3]%Z [2; 1]%Z 1 0.5%float 0 0
    = Some (SimpleResult [3; 1]%Z [2; 1]%Z) ∧
  swap_n [1; 3]%Z [2; 1]%Z 1 ones [9; 9]%Z [9; 9]%Z 0 0
    = Some (SwapResult [3; 1]%Z [2; 1]%Z
              (Diag [false] [false] [false] [true] [true] [1%float])) ∧
  zip [3; 1]%Z [2; 1]%Z !! 1 = Some (1, 1)%Z.
Proof.
  split; [|split; [|split]].
  - intros v Hv. simpl in Hv.
    apply elem_of_cons in Hv as [Hv|Hv]; [injection Hv; intros; lia|].
    apply elem_of_cons in Hv as [Hv|Hv]; [injection Hv; intros; lia|].
    by apply elem_of_nil in Hv.
  - vm_compute. reflexivity.
  - vm_compute. reflexivity.
  - reflexivity.
Qed.

(** ** Seeds *)

(** C8. With a seed other than the sentinel [-1], the result of either
    entry point does not depend on what [std::random_device] would return:
    two calls with the same inputs and seed return the same edge list, and
    for [swap_n] the same six diagnostic columns. *)
Theorem seed_determinism {R : Generator}
    (Re_from Re_to : list Z) (n : nat) (swap_p : float) (w : Z → Z → float)
    (Rz_from Rz_to : list Z) (seed rd1 rd2 : Z) :
  seed ≠ (-1)%Z →
  simple_swap_n Re_from Re_to n swap_p seed rd1
    = simple_swap_n Re_from Re_to n swap_p seed rd2 ∧
  swap_n Re_from Re_to n w Rz_from Rz_to seed rd1
    = swap_n Re_from Re_to n w Rz_from Rz_to seed rd2.
Proof.
  intros Hseed.
  assert (Hseeds : effective_seed seed rd1 = effective_seed seed rd2).
  { unfold effective_seed. by rewrite bool_decide_eq_false_2. }
  assert (Hinit : init Re_from Re_to seed rd1 = init Re_from Re_to seed rd2).
  { unfold init. by rewrite Hseeds. }
  unfold simple_swap_n, simple_run, swap_n, swap_run. by rewrite Hinit.
Qed.

Lemma seed_determinism_witness :
  let R := Replay.generator [0; 1; 0]%Z in
  simple_swap_n [1; 3]%Z [2; 4]%Z 1 0.5%float 7 1
    = simple_swap_n [1; 3]%Z [2; 4]%Z 1 0.5%float 7 2 ∧
  swap_n [1; 3]%Z [2; 4]%Z 1 ones [9; 9]%Z [9; 9]%Z 7 1
    = swap_n [1; 3]%Z [2; 4]%Z 1 ones [9; 9]%Z [9; 9]%Z 7 2.
Proof. apply seed_determinism. lia. Defined.

(** ** The diagnostic columns *)

(** A draw below one is below every acceptance ratio of at least one. *)
Lemma ltb_below_one_le (u p : float) :
  PrimFloat.ltb u 1 = true → PrimFloat.leb 1 p = true →
  PrimFloat.ltb u p = true.
Proof.
  rewrite !ltb_spec, leb_spec.
  replace (Prim2SF 1) with (S754_finite false 4503599627370496 (-52))
    by (vm_compute; reflexivity).
  generalize 4503599627370496%positive (-52)%Z. intros m1 e1.
  unfold SFltb, SFleb, SFcompare.
  destruct (Prim2SF u) as [su|su| |su mu eu], (Prim2SF p) as [sp|sp| |sp mp ep];
    try destruct su; try destruct sp; try discriminate; try reflexivity.
  rewrite !Pos.compare_cont_spec. unfold Pos.switch_Eq.
  destruct (Z.compare_spec eu e1), (Z.compare_spec e1 ep), (Z.compare_spec eu ep);
    try discriminate; try reflexivity; try lia.
  all: destruct (Pos.compare_spec mu m1), (Pos.compare_spec m1 mp),
         (Pos.compare_spec mu mp); try discriminate; try reflexivity; lia.
Qed.

Create HintDb columns.

Section Diagnostics.
Context {R : Generator}.

Lemma diag_init_columns n : columns_of_length n (diag_init n).
Proof. unfold columns_of_length, diag_init. simpl. by rewrite !length_replicate. Qed.

Lemma diag_init_row n k :
  k < n →
  row (diag_init n) k =
    (Some false, Some false, Some false, Some false, Some false, Some 0%float).
Proof.
  intros Hk. unfold row, diag_init. simpl.
  by rewrite !lookup_replicate_2 by done.
Qed.

(** The five ways through one iteration, with the state each leaves. *)
Lemma swap_body_Some m w zeroSet k st dg s' :
  swap_body m w zeroSet k (st, dg) = Some s' →
  let i := (proposal m (gen st)).1.1 in
  let j := (proposal m (gen st)).1.2 in
  let st2 := with_gen (proposal m (gen st)).2 st in
  (i = j ∧ s' = (st2, set_same_edge k true dg)) ∨
  (i ≠ j ∧ ∃ a b c d, endpoints st i j = Some (a, b, c, d) ∧
    ((checkerboard_fails (edgeSet st) a b c d = true ∧
      s' = (st2, set_is_checkerboard k false dg)) ∨
     (checkerboard_fails (edgeSet st) a b c d = false ∧
      struct_zero_hit zeroSet (edgeSet st) a b c d = true ∧
      s' = (st2, set_is_not_struct_zeros k false dg)) ∨
     (checkerboard_fails (edgeSet st) a b c d = false ∧
      struct_zero_hit zeroSet (edgeSet st) a b c d = false ∧
      let dg3 := set_swap_ps k (ratio w a b c d) (set_can_swap k true dg) in
      let st3 := with_gen (randu (gen st2)).2 st2 in
      ((PrimFloat.ltb (randu (gen st2)).1 (ratio w a b c d) = false ∧
        s' = (st3, dg3)) ∨
       (PrimFloat.ltb (randu (gen st2)).1 (ratio w a b c d) = true ∧
        ∃ st', commit i j a b c d st3 = Some st' ∧
               s' = (st', set_did_swap k true dg3)))))).
Proof.
  unfold swap_body, proposal. cbv zeta. simpl.
  set (r1 := randint 0 _ (gen st)). set (r2 := randint 0 _ r1.2).
  intros H. case_bool_decide as Hij.
  { left. split; [done|]. by injection H as <-. }
  right. split; [done|].
  rewrite endpoints_with_gen in H.
  destruct (endpoints st r1.1 r2.1) as [[[[a b] c] d]|]; simpl in H; [|done].
  exists a, b, c, d. split; [done|].
  destruct (checkerboard_fails _ a b c d).
  { left. split; [done|]. by injection H as <-. }
  right.
  destruct (struct_zero_hit _ _ a b c d).
  { left. do 2 (split; [done|]). by injection H as <-. }
  right. do 2 (split; [done|]).
  destruct (PrimFloat.ltb _ _).
  - right. split; [done|].
    destruct (commit _ _ _ _ _ _ _) as [st'|]; simpl in H; [|done].
    exists st'. split; [done|]. by injection H as <-.
  - left. split; [done|]. by injection H as <-.
Qed.

Lemma columns_set_same_edge n k v d :
  columns_of_length n d → columns_of_length n (set_same_edge k v d).
Proof. unfold columns_of_length. simpl. by rewrite length_insert. Qed.
Lemma columns_set_is_checkerboard n k v d :
  columns_of_length n d → columns_of_length n (set_is_checkerboard k v d).
Proof. unfold columns_of_length. simpl. by rewrite length_insert. Qed.
Lemma columns_set_is_not_struct_zeros n k v d :
  columns_of_length n d → columns_of_length n (set_is_not_struct_zeros k v d).
Proof. unfold columns_of_length. simpl. by rewrite length_insert. Qed.
Lemma columns_set_can_swap n k v d :
  columns_of_length n d → columns_of_length n (set_can_swap k v d).
Proof. unfold columns_of_length. simpl. by rewrite length_insert. Qed.
Lemma columns_set_did_swap n k v d :
  columns_of_length n d → columns_of_length n (set_did_swap k v d).
Proof. unfold columns_of_length. simpl. by rewrite length_insert. Qed.
Lemma columns_set_swap_ps n k v d :
  columns_of_length n d → columns_of_length n (set_swap_ps k v d).
Proof. unfold columns_of_length. simpl. by rewrite length_insert. Qed.

Lemma row_set_same_edge k v d k' :
  k' ≠ k → row (set_same_edge k v d) k' = row d k'.
Proof. intros. unfold row. simpl. by rewrite list_lookup_insert_ne. Qed.
Lemma row_set_is_checkerboard k v d k' :
  k' ≠ k → row (set_is_checkerboard k v d) k' = row d k'.
Proof. intros. unfold row. simpl. by rewrite list_lookup_insert_ne. Qed.
Lemma row_set_is_not_struct_zeros k v d k' :
  k' ≠ k → row (set_is_not_struct_zeros k v d) k' = row d k'.
Proof. intros. unfold row. simpl. by rewrite list_lookup_insert_ne. Qed.
Lemma row_set_can_swap k v d k' :
  k' ≠ k → row (set_can_swap k v d) k' = row d k'.
Proof. intros. unfold row. simpl. by rewrite list_lookup_insert_ne. Qed.
Lemma row_set_did_swap k v d k' :
  k' ≠ k → row (set_did_swap k v d) k' = row d k'.
Proof. intros. unfold row. simpl. by rewrite list_lookup_insert_ne. Qed.
Lemma row_set_swap_ps k v d k' :
  k' ≠ k → row (set_swap_ps k v d) k' = row d k'.
Proof. intros. unfold row. simpl. by rewrite list_lookup_insert_ne. Qed.

#[local] Hint Resolve columns_set_same_edge columns_set_is_checkerboard
  columns_set_is_not_struct_zeros columns_set_can_swap columns_set_did_swap
  columns_set_swap_ps : columns.

(** Iteration [k] keeps the columns' length and writes row [k] only. *)
Lemma swap_body_columns m w zeroSet k s s' n :
  swap_body m w zeroSet k s = Some s' →
  columns_of_length n s.2 → columns_of_length n s'.2.
Proof.
  destruct s as [st dg]. intros H Hc. simpl in Hc.
  destruct (swap_body_Some _ _ _ _ _ _ _ H)
    as [[_ ->]|(_ & a & b & c & d & _ &
         [[_ ->]|[(_ & _ & ->)|(_ & _ & [[_ ->]|(_ & st' & _ & ->)])]])];
    simpl; auto 6 with columns.
Qed.

Lemma swap_body_row_other m w zeroSet k s s' k' :
  swap_body m w zeroSet k s = Some s' → k' ≠ k → row s'.2 k' = row s.2 k'.
Proof.
  destruct s as [st dg]. intros H Hk.
  destruct (swap_body_Some _ _ _ _ _ _ _ H)
    as [[_ ->]|(_ & a & b & c & d & _ &
         [[_ ->]|[(_ & _ & ->)|(_ & _ & [[_ ->]|(_ & st' & _ & ->)])]])];
    simpl;
    rewrite ?row_set_did_swap, ?row_set_swap_ps, ?row_set_can_swap,
      ?row_set_same_edge, ?row_set_is_checkerboard,
      ?row_set_is_not_struct_zeros by done; done.
Qed.

Lemma swap_loop_columns m w zeroSet k s s' n :
  swap_loop m w zeroSet k s = Some s' →
  columns_of_length n s.2 → columns_of_length n s'.2.
Proof.
  revert s'. induction k as [|k IH]; simpl; intros s' H Hc.
  - by injection H as <-.
  - destruct (swap_loop m w zeroSet k s) as [s1|]; simpl in H; [|done].
    eapply swap_body_columns; eauto.
Qed.

(** Rows from [k] on are untouched by iterations [0 .. k-1]. *)
Lemma swap_loop_row_later m w zeroSet k s s' k' :
  swap_loop m w zeroSet k s = Some s' → k ≤ k' → row s'.2 k' = row s.2 k'.
Proof.
  revert s'. induction k as [|k IH]; simpl; intros s' H Hk.
  - by injection H as <-.
  - destruct (swap_loop m w zeroSet k s) as [s1|]; simpl in H; [|done].
    rewrite (swap_body_row_other _ _ _ _ _ _ k' H) by lia.
    apply IH; [done|lia].
Qed.

(** Row [k] is final once iteration [k] has run. *)
Lemma swap_loop_row_stable m w zeroSet k n s s1 sn :
  swap_loop m w zeroSet (S k) s = Some s1 →
  swap_loop m w zeroSet n s = Some sn →
  S k ≤ n → row sn.2 k = row s1.2 k.
Proof.
  intros H1. revert sn. induction n as [|n IH]; intros sn Hn Hle; [lia|].
  destruct (decide (n = k)) as [->|Hne].
  - congruence.
  - simpl in Hn.
    destruct (swap_loop m w zeroSet n s) as [sn'|]; simpl in Hn; [|done].
    rewrite (swap_body_row_other _ _ _ _ _ _ k Hn) by lia.
    apply IH; [done|lia].
Qed.

(** Iteration [k] stores nothing but [false] in the two rejection columns. *)
Lemma swap_body_rejection_columns m w zeroSet k s s' n :
  swap_body m w zeroSet k s = Some s' →
  is_checkerboard s.2 = replicate n false ∧
    is_not_struct_zeros s.2 = replicate n false →
  is_checkerboard s'.2 = replicate n false ∧
    is_not_struct_zeros s'.2 = replicate n false.
Proof.
  destruct s as [st dg]. intros H [Hcb Hnz]. simpl in Hcb, Hnz.
  destruct (swap_body_Some _ _ _ _ _ _ _ H)
    as [[_ ->]|(_ & a & b & c & d & _ &
         [[_ ->]|[(_ & _ & ->)|(_ & _ & [[_ ->]|(_ & st' & _ & ->)])]])];
    simpl; rewrite ?Hcb, ?Hnz, ?insert_replicate; done.
Qed.

(** Iteration [k] records [did_swap] only next to [can_swap]. *)
Lemma swap_body_did_can m w zeroSet k s s' n :
  swap_body m w zeroSet k s = Some s' →
  columns_of_length n s.2 →
  (∀ k', did_swap s.2 !! k' = Some true → can_swap s.2 !! k' = Some true) →
  ∀ k', did_swap s'.2 !! k' = Some true → can_swap s'.2 !! k' = Some true.
Proof.
  destruct s as [st dg]. intros H (_ & _ & _ & Hl4 & Hl5 & _) Hinv k'.
  simpl in Hl4, Hl5, Hinv.
  destruct (swap_body_Some _ _ _ _ _ _ _ H)
    as [[_ ->]|(_ & a & b & c & d & _ &
         [[_ ->]|[(_ & _ & ->)|(_ & _ & [[_ ->]|(_ & st' & _ & ->)])]])];
    simpl; try apply Hinv.
  - intros Hd. destruct (decide (k = k')) as [<-|Hne].
    + apply list_lookup_insert_eq. apply lookup_lt_Some in Hd. lia.
    + rewrite list_lookup_insert_ne by done. by apply Hinv.
  - intros Hd. destruct (decide (k = k')) as [<-|Hne].
    + apply list_lookup_insert_eq. apply lookup_lt_Some in Hd.
      rewrite length_insert in Hd. lia.
    + rewrite list_lookup_insert_ne in Hd |- * by done. by apply Hinv.
Qed.

Lemma swap_loop_diag m w zeroSet k n st s' :
  swap_loop m w zeroSet k (st, diag_init n) = Some s' →
  columns_of_length n s'.2 ∧
  is_checkerboard s'.2 = replicate n false ∧
  is_not_struct_zeros s'.2 = replicate n false ∧
  (∀ k', did_swap s'.2 !! k' = Some true → can_swap s'.2 !! k' = Some true).
Proof.
  revert s'. induction k as [|k IH]; simpl; intros s' H.
  - injection H as <-. simpl. split; [apply diag_init_columns|].
    do 2 (split; [done|]). intros k' Hd.
    apply lookup_replicate in Hd as [? _]. done.
  - destruct (swap_loop m w zeroSet k (st, diag_init n)) as [s1|];
      simpl in H; [|done].
    destruct (IH s1 eq_refl) as (Hc & Hcb & Hnz & Hdc).
    split; [by eapply swap_body_columns|].
    destruct (swap_body_rejection_columns _ _ _ _ _ _ n H (conj Hcb Hnz)).
    do 2 (split; [done|]). by eapply swap_body_did_can.
Qed.

End Diagnostics.

(** C10. When a step of [swap_n] reaches the structural-zero test, the
    checkerboard test has found [(c,b)] absent from the edge set, so the
    second lookup of the structural-zero test, made in the edge set, finds
    nothing: the test is the lookup of [(a,d)] in the zero set. Hence two
    zero sets that agree on [(a,d)] give the same step, whatever they say
    of [(c,b)]. *)
Theorem second_zero_lookup_never_hits {R : Generator}
    (m : Z) (w : Z → Z → float) (zeroSet zeroSet' : gset (Z * Z)) (k : nat)
    (s : chain * diag) :
  let i := (proposal m (gen s.1)).1.1 in
  let j := (proposal m (gen s.1)).1.2 in
  (∀ a b c d,
     endpoints s.1 i j = Some (a, b, c, d) →
     checkerboard_fails (edgeSet s.1) a b c d = false →
     found (edgeSet s.1) (c, b) = false ∧
     struct_zero_hit zeroSet (edgeSet s.1) a b c d = found zeroSet (a, d)) ∧
  ((∀ a b c d,
      endpoints s.1 i j = Some (a, b, c, d) →
      found zeroSet (a, d) = found zeroSet' (a, d)) →
   swap_body m w zeroSet k s = swap_body m w zeroSet' k s).
Proof.
  intros i j.
  assert (Hdead : ∀ zs a b c d,
            checkerboard_fails (edgeSet s.1) a b c d = false →
            found (edgeSet s.1) (c, b) = false ∧
            struct_zero_hit zs (edgeSet s.1) a b c d = found zs (a, d)).
  { intros zs a b c d Hcb. unfold checkerboard_fails in Hcb.
    apply orb_false_iff in Hcb as [_ Hcb]. split; [done|].
    unfold struct_zero_hit. rewrite Hcb. apply orb_false_r. }
  split; [intros a b c d _; apply Hdead|].
  intros Hagree. subst i j. unfold proposal in Hagree. simpl in Hagree.
  unfold swap_body. cbv zeta.
  case_bool_decide; [done|]. rewrite endpoints_with_gen.
  destruct (endpoints s.1 _ _) as [[[[a b] c] d]|] eqn:He; simpl; [|done].
  destruct (checkerboard_fails _ a b c d) eqn:Hcb; [done|].
  simpl in Hcb.
  rewrite (proj2 (Hdead zeroSet a b c d Hcb)).
  rewrite (proj2 (Hdead zeroSet' a b c d Hcb)).
  by rewrite (Hagree a b c d eq_refl).
Qed.

Lemma second_zero_lookup_never_hits_witness :
  let R := Replay.generator [0; 1; 0]%Z in
  let st := Chain [1; 3]%Z [2; 4]%Z (list_to_set [(1, 2); (3, 4)]%Z)
                  (mt19937 0) in
  found ({[ (3, 2)%Z ]} : gset (Z * Z)) (3, 2)%Z = true ∧
  swap_body 2 ones ∅ 0 (st, diag_init 1)
    = swap_body 2 ones {[ (3, 2)%Z ]} 0 (st, diag_init 1).
Proof.
  split; [reflexivity|].
  apply (second_zero_lookup_never_hits (R := Replay.generator [0; 1; 0]%Z)).
  intros a b c d He. vm_compute in He. injection He as <- <- <- <-.
  reflexivity.
Defined.

(** ** Where the code departs from the claims *)

(** C1 fails on the code. Edges [(1,2), (3,4)], zero vectors encoding
    [(3,2)] and [(5,5)]: the edge list starts disjoint from the zero set.
    The proposal [i = 0], [j = 1] has [(a,d) = (1,4)] and [(c,b) = (3,2)];
    the structural-zero test looks [(3,2)] up in the edge set, not in the zero
    set, so the step is taken and slot 0 of the returned edge list is the
    forbidden pair [(3,2)]. *)
Theorem forbidden_edge_committed :
  let R := Replay.generator [0; 1; 0]%Z in
  ∃ zs, zero_set 2 [3; 5]%Z [2; 5]%Z = Some zs ∧
    found zs (3, 2)%Z = true ∧
    found zs (1, 2)%Z = false ∧ found zs (3, 4)%Z = false ∧
    swap_n [1; 3]%Z [2; 4]%Z 1 ones [3; 5]%Z [2; 5]%Z 0 0
      = Some (SwapResult [3; 1]%Z [2; 4]%Z
                (Diag [false] [false] [false] [true] [true] [1%float])) ∧
    zip [3; 1]%Z [2; 4]%Z !! 0 = Some (3, 2)%Z.
Proof.
  eexists. split; [reflexivity|].
  repeat split; vm_compute; reflexivity.
Qed.

(** C2 fails on the code. The loop that fills the zero set runs to [m], the
    number of edges. With two edges and three zeros the third zero, [(1,4)],
    is never inserted, and a step then commits it as an edge; with fewer
    zeros than edges the loop reads past the end of the zero vectors. *)
Theorem zero_set_stops_at_edge_count :
  let R := Replay.generator [0; 1; 0]%Z in
  zip [9; 9; 1]%Z [9; 9; 4]%Z !! 2 = Some (1, 4)%Z ∧
  (∃ zs, zero_set 2 [9; 9; 1]%Z [9; 9; 4]%Z = Some zs ∧
         found zs (1, 4)%Z = false) ∧
  swap_n [1; 3]%Z [2; 4]%Z 1 ones [9; 9; 1]%Z [9; 9; 4]%Z 0 0
    = Some (SwapResult [3; 1]%Z [2; 4]%Z
              (Diag [false] [false] [false] [true] [true] [1%float])) ∧
  zip [3; 1]%Z [2; 4]%Z !! 1 = Some (1, 4)%Z ∧
  zero_set 2 [1]%Z [4]%Z = None.
Proof.
  split; [reflexivity|]. split.
  { eexists. split; [reflexivity|]. vm_compute. reflexivity. }
  repeat split; vm_compute; reflexivity.
Qed.

(** C3 fails on the code. The column [is_checkerboard] starts all false and
    the loop only ever stores [false] in it. On edges [(1,2), (3,4)] the
    proposal [i = 0], [j = 1] passes the checkerboard test (neither [(1,4)]
    nor [(3,2)] is an edge) and is accepted, yet [is_checkerboard[0]] is
    false. *)
Theorem is_checkerboard_false_on_passing_step :
  let R := Replay.generator [0; 1; 0]%Z in
  checkerboard_fails (list_to_set [(1, 2); (3, 4)]%Z) 1 2 3 4 = false ∧
  swap_n [1; 3]%Z [2; 4]%Z 1 ones [9; 9]%Z [9; 9]%Z 0 0
    = Some (SwapResult [3; 1]%Z [2; 4]%Z
              (Diag [false] [false] [false] [true] [true] [1%float])) ∧
  (is_checkerboard ∘ wr_diag <$>
     swap_n [1; 3]%Z [2; 4]%Z 1 ones [9; 9]%Z [9; 9]%Z 0 0) = Some [false].
Proof. repeat split; vm_compute; reflexivity. Qed.


(** C4 fails on the code. Two steps on edges [(1,2), (3,4)]: step 0 draws
    [i = j = 0], step 1 draws [i = 0], [j = 1] and swaps. Both rows are
    written, and [did_swap] holds only where [can_swap] does; but since
    [is_checkerboard] and [is_not_struct_zeros] are false in every row,
    three of the four conditions hold in each row, not one. *)
Theorem three_conditions_hold_per_row :
  let R := Replay.generator [0; 0; 0; 1; 0]%Z in
  swap_n [1; 3]%Z [2; 4]%Z 2 ones [9; 9]%Z [9; 9]%Z 0 0
    = Some (SwapResult [3; 1]%Z [2; 4]%Z
              (Diag [true; false] [false; false] [false; false]
                    [false; true] [false; true] [0%float; 1%float])) ∧
  (wr_diag <$> swap_n [1; 3]%Z [2; 4]%Z 2 ones [9; 9]%Z [9; 9]%Z 0 0)
    ≫= (λ d, conditions_holding d 0) = Some 3 ∧
  (wr_diag <$> swap_n [1; 3]%Z [2; 4]%Z 2 ones [9; 9]%Z [9; 9]%Z 0 0)
    ≫= (λ d, conditions_holding d 1) = Some 3.
Proof. repeat split; vm_compute; reflexivity. Qed.

(** ** More on the diagnostics and the entry points *)

(** Every call of [swap_n] that returns hands back six columns of [n] rows,
    records [did_swap] only in rows that record [can_swap], and leaves
    [is_checkerboard] and [is_not_struct_zeros] false in every row. *)
Theorem diagnostics_shape {R : Generator}
    (Re_from Re_to : list Z) (n : nat) (w : Z → Z → float)
    (Rz_from Rz_to : list Z) (seed rd : Z) (out : swap_result) :
  swap_n Re_from Re_to n w Rz_from Rz_to seed rd = Some out →
  columns_of_length n (wr_diag out) ∧
  (∀ k, did_swap (wr_diag out) !! k = Some true →
        can_swap (wr_diag out) !! k = Some true) ∧
  is_checkerboard (wr_diag out) = replicate n false ∧
  is_not_struct_zeros (wr_diag out) = replicate n false.
Proof.
  unfold swap_n, swap_run. intros H.
  destruct (init _ _ _ _) as [st0|]; simpl in H; [|done].
  destruct (zero_set _ _ _) as [zs|]; simpl in H; [|done].
  destruct (swap_loop _ _ _ _ _) as [s|] eqn:Hs; simpl in H; [|done].
  injection H as <-. simpl.
  destruct (swap_loop_diag _ _ _ _ _ _ _ Hs) as (Hc & Hcb & Hnz & Hdc).
  done.
Qed.

Lemma diagnostics_shape_witness :
  let R := Replay.generator [0; 0; 0; 1; 0]%Z in
  let d := Diag [true; false] [false; false] [false; false]
                [false; true] [false; true] [0%float; 1%float] in
  columns_of_length 2 d ∧
  (∀ k, did_swap d !! k = Some true → can_swap d !! k = Some true) ∧
  is_checkerboard d = replicate 2 false ∧
  is_not_struct_zeros d = replicate 2 false.
Proof.
  apply (diagnostics_shape (R := Replay.generator [0; 0; 0; 1; 0]%Z)
           [1; 3]%Z [2; 4]%Z 2 ones [9; 9]%Z [9; 9]%Z 0 0
           (SwapResult [3; 1]%Z [2; 4]%Z
              (Diag [true; false] [false; false] [false; false]
                    [false; true] [false; true] [0%float; 1%float]))).
  vm_compute. reflexivity.
Defined.

(** With [n = 0] both entry points return the caller's edge list as it
    came, and [swap_n] six empty columns. *)
Theorem zero_steps_identity {R : Generator}
    (Re_from Re_to : list Z) (swap_p : float) (w : Z → Z → float)
    (Rz_from Rz_to : list Z) (seed rd : Z) :
  length Re_to = length Re_from → Re_from ≠ [] →
  length Re_from ≤ length Rz_from → length Re_from ≤ length Rz_to →
  simple_swap_n Re_from Re_to 0 swap_p seed rd
    = Some (SimpleResult Re_from Re_to) ∧
  swap_n Re_from Re_to 0 w Rz_from Rz_to seed rd
    = Some (SwapResult Re_from Re_to (Diag [] [] [] [] [] [])).
Proof.
  intros Hlen Hne Hzf Hzt.
  unfold simple_swap_n, simple_run, swap_n, swap_run, zero_set.
  rewrite init_Some by done. simpl.
  by rewrite build_set_take by done.
Qed.

Lemma zero_steps_identity_witness :
  let R := Replay.generator [0; 1; 0]%Z in
  simple_swap_n [1; 3]%Z [2; 4]%Z 0 0.5%float 0 0
    = Some (SimpleResult [1; 3]%Z [2; 4]%Z) ∧
  swap_n [1; 3]%Z [2; 4]%Z 0 ones [9; 9]%Z [9; 9]%Z 0 0
    = Some (SwapResult [1; 3]%Z [2; 4]%Z (Diag [] [] [] [] [] [])).
Proof.
  apply zero_steps_identity; simpl; first [lia | discriminate].
Defined.

(** The zero set [swap_n] builds is the set of the first [m] pairs of the
    zero vectors, each component converted to [int], [m] the number of
    edges: for ids that fit an [int], the first [m] pairs themselves. With a
    zero vector shorter than that the construction reads past its end. *)
Theorem zero_set_first_m (m : nat) (Rz_from Rz_to : list Z) :
  (m ≤ length Rz_from → m ≤ length Rz_to →
   zero_set m Rz_from Rz_to
     = Some (list_to_set
               (take m (zip (to_int <$> Rz_from) (to_int <$> Rz_to))))) ∧
  (m ≤ length Rz_from → m ≤ length Rz_to →
   Forall in_int_range Rz_from → Forall in_int_range Rz_to →
   zero_set m Rz_from Rz_to
     = Some (list_to_set (take m (zip Rz_from Rz_to)))) ∧
  (length Rz_from < m → zero_set m Rz_from Rz_to = None).
Proof.
  split; [apply build_set_take|]. split.
  - intros Hf Ht Hrf Hrt. unfold zero_set. rewrite build_set_take by done.
    by rewrite (to_int_fmap_id _ Hrf), (to_int_fmap_id _ Hrt).
  - apply build_set_short_l.
Qed.

(** ** The hash of pairs *)

(** [pair_hash] does not see the order of the two components, sends every
    pair of the form [(a,a)] to zero, and stays a 64-bit [size_t] when
    [std::hash<int>] returns one. *)
Theorem pair_hash_collisions (hash_int : Z → Z) (a b : Z) :
  pair_hash hash_int (a, b) = pair_hash hash_int (b, a) ∧
  pair_hash hash_int (a, a) = 0%Z ∧
  ((∀ x, (0 ≤ hash_int x < 2 ^ 64)%Z) →
   (0 ≤ pair_hash hash_int (a, b) < 2 ^ 64)%Z).
Proof.
  unfold pair_hash. simpl. split; [apply Z.lxor_comm|].
  split; [apply Z.lxor_nilpotent|].
  intros Hr. destruct (Hr a) as [Ha0 Ha], (Hr b) as [Hb0 Hb].
  assert (H0 : (0 ≤ Z.lxor (hash_int a) (hash_int b))%Z).
  { by apply Z.lxor_nonneg. }
  split; [done|].
  destruct (decide (Z.lxor (hash_int a) (hash_int b) = 0)%Z) as [->|Hne];
    [done|].
  apply Z.log2_lt_pow2; [lia|].
  pose proof (Z.log2_lxor _ _ Ha0 Hb0).
  assert (Z.log2 (hash_int a) < 64)%Z.
  { destruct (decide (hash_int a = 0)%Z) as [->|?]; [done|].
    apply Z.log2_lt_pow2; lia. }
  assert (Z.log2 (hash_int b) < 64)%Z.
  { destruct (decide (hash_int b = 0)%Z) as [->|?]; [done|].
    apply Z.log2_lt_pow2; lia. }
  lia.
Qed.

(** ** One step, in full *)

Section Steps.
Context {R : Generator} {L : GeneratorLaws R}.

(** What a commit leaves: the [from] fields of slots [i] and [j] hold the
    [int]s [c] and [a], and the hash set has exchanged the two old pairs for
    the two new ones. *)
Lemma commit_effect st i j a b c d st' :
  endpoints st i j = Some (a, b, c, d) →
  commit i j a b c d st = Some st' →
  e_from st' = <[Z.to_nat j := a]> (<[Z.to_nat i := c]> (e_from st)) ∧
  edgeSet st' =
    (({[ (c, b) ]} ∪ ({[ (a, d) ]} ∪ edgeSet st)) ∖ {[ (a, b) ]}) ∖ {[ (c, d) ]} ∧
  e_to st' = e_to st ∧ gen st' = gen st.
Proof.
  intros He Hc. rewrite (commit_Some _ _ _ _ _ _ _ He) in Hc.
  by injection Hc as <-.
Qed.

(** The edge list after the two writes, where the [to] fields of the two
    slots fit an [int]. *)
Lemma edges_after_swap (ef et : list Z) (i j : nat) (a b c d : Z) :
  et !! i = Some b → et !! j = Some d →
  zip (<[j := a]> (<[i := c]> ef)) et
    = <[j := (a, d)]> (<[i := (c, b)]> (zip ef et)).
Proof.
  intros Hb Hd. rewrite (zip_insert_l _ _ _ _ d) by done.
  by rewrite (zip_insert_l _ _ _ _ b) by done.
Qed.

Lemma endpoints_int_range st i j a b c d :
  endpoints st i j = Some (a, b, c, d) →
  in_int_range a ∧ in_int_range c.
Proof.
  intros [(_ & Ha & _) (_ & Hc & _)]%endpoints_Some.
  rewrite <- (to_int_lookup_fixed _ _ _ Ha), <- (to_int_lookup_fixed _ _ _ Hc).
  split; apply to_int_range.
Qed.

Lemma struct_zero_hit_after_checkerboard zs es a b c d :
  checkerboard_fails es a b c d = false →
  struct_zero_hit zs es a b c d = found zs (a, d).
Proof.
  unfold checkerboard_fails, struct_zero_hit.
  intros [_ ->]%orb_false_iff. apply orb_false_r.
Qed.

(** One iteration of the uniform sampler, from the endpoints it read. *)
Lemma simple_body_effect m swap_p st st' a b c d :
  simple_body m swap_p st = Some st' →
  let i := (proposal m (gen st)).1.1 in
  let j := (proposal m (gen st)).1.2 in
  let g := (proposal m (gen st)).2 in
  endpoints st i j = Some (a, b, c, d) →
  let swaps :=
    negb (bool_decide (i = j))
    && (negb (found (edgeSet st) (a, d)) && negb (found (edgeSet st) (c, b)))
    && PrimFloat.ltb (randu g).1 swap_p in
  (if swaps
   then e_from st' = <[Z.to_nat j := a]> (<[Z.to_nat i := c]> (e_from st)) ∧
        edgeSet st' =
          (({[ (c, b) ]} ∪ ({[ (a, d) ]} ∪ edgeSet st)) ∖ {[ (a, b) ]})
            ∖ {[ (c, d) ]}
   else e_from st' = e_from st ∧ edgeSet st' = edgeSet st) ∧
  e_to st' = e_to st.
Proof.
  unfold simple_body, proposal. cbv zeta. simpl.
  set (r1 := randint 0 _ (gen st)). set (r2 := randint 0 _ r1.2).
  intros H He. case_bool_decide as Hij; simpl.
  { by injection H as <-. }
  rewrite endpoints_with_gen, He in H. simpl in H.
  destruct (negb (found _ (a, d)) && negb (found _ (c, b))); simpl; simpl in H.
  2:{ by injection H as <-. }
  destruct (PrimFloat.ltb _ _).
  2:{ by injection H as <-. }
  destruct (commit_effect (with_gen (randu r2.2).2 (with_gen r2.2 st))
              _ _ _ _ _ _ st' He H) as (He' & Hs' & Ht' & _).
  done.
Qed.

(** One iteration of the weighted sampler on a blank row [k], from the
    endpoints it read: the row it writes and what it does to the edges. *)
Lemma swap_body_effect m w zeroSet k st dg s' n a b c d :
  swap_body m w zeroSet k (st, dg) = Some s' →
  columns_of_length n dg → k < n →
  row dg k =
    (Some false, Some false, Some false, Some false, Some false, Some 0%float) →
  let i := (proposal m (gen st)).1.1 in
  let j := (proposal m (gen st)).1.2 in
  let g := (proposal m (gen st)).2 in
  endpoints st i j = Some (a, b, c, d) →
  let passes :=
    negb (bool_decide (i = j))
    && negb (checkerboard_fails (edgeSet st) a b c d)
    && negb (found zeroSet (a, d)) in
  let swaps := passes && PrimFloat.ltb (randu g).1 (ratio w a b c d) in
  row s'.2 k =
    (Some (bool_decide (i = j)), Some false, Some false, Some passes,
     Some swaps, Some (if passes then ratio w a b c d else 0%float)) ∧
  (if swaps
   then e_from s'.1 = <[Z.to_nat j := a]> (<[Z.to_nat i := c]> (e_from st)) ∧
        edgeSet s'.1 =
          (({[ (c, b) ]} ∪ ({[ (a, d) ]} ∪ edgeSet st)) ∖ {[ (a, b) ]})
            ∖ {[ (c, d) ]}
   else e_from s'.1 = e_from st ∧ edgeSet s'.1 = edgeSet st) ∧
  e_to s'.1 = e_to st.
Proof.
  intros H (Hl1 & Hl2 & Hl3 & Hl4 & Hl5 & Hl6) Hk Hblank i j g He.
  subst i j g.
  injection Hblank as Hse Hcb Hnz Hcan Hdid Hps.
  destruct (swap_body_Some _ _ _ _ _ _ _ H)
    as [[Hij ->]|(Hij & a' & b' & c' & d' & He' &
         [[Hf ->]|[(Hf & Hz & ->)|(Hf & Hz & [[Hu ->]|(Hu & st' & Hc & ->)])]])];
    try (rewrite He in He'; injection He' as <- <- <- <-).
  - rewrite (bool_decide_eq_true_2 _ Hij). simpl. unfold row. simpl.
    rewrite list_lookup_insert_eq by lia. by rewrite Hcb, Hnz, Hcan, Hdid, Hps.
  - rewrite (bool_decide_eq_false_2 _ Hij), Hf. simpl. unfold row. simpl.
    rewrite list_lookup_insert_eq by lia. by rewrite Hse, Hnz, Hcan, Hdid, Hps.
  - rewrite (struct_zero_hit_after_checkerboard _ _ _ _ _ _ Hf) in Hz.
    rewrite (bool_decide_eq_false_2 _ Hij), Hf, Hz. simpl. unfold row. simpl.
    rewrite list_lookup_insert_eq by lia. by rewrite Hse, Hcb, Hcan, Hdid, Hps.
  - rewrite (struct_zero_hit_after_checkerboard _ _ _ _ _ _ Hf) in Hz.
    unfold with_gen in Hu. cbn [gen] in Hu.
    rewrite (bool_decide_eq_false_2 _ Hij), Hf, Hz, Hu. simpl. unfold row. simpl.
    rewrite !list_lookup_insert_eq by lia. by rewrite Hse, Hcb, Hnz, Hdid.
  - rewrite (struct_zero_hit_after_checkerboard _ _ _ _ _ _ Hf) in Hz.
    unfold with_gen in Hu. cbn [gen] in Hu.
    rewrite (bool_decide_eq_false_2 _ Hij), Hf, Hz, Hu. simpl. unfold row. simpl.
    rewrite !list_lookup_insert_eq by lia. rewrite Hse, Hcb, Hnz.
    split; [done|].
    destruct (commit_effect
                (with_gen (randu (gen (with_gen (proposal m (gen st)).2 st))).2
                   (with_gen (proposal m (gen st)).2 st))
                _ _ _ _ _ _ st' He Hc) as (He2 & Hs2 & Ht2 & _).
    done.
Qed.

(** A step writes only [int]s: a [from] column whose ids fit an [int] stays
    one. *)
Lemma simple_body_ranged m swap_p st st' :
  simple_body m swap_p st = Some st' →
  Forall in_int_range (e_from st) → Forall in_int_range (e_from st').
Proof.
  unfold simple_body. cbv zeta.
  set (r1 := randint 0 _ (gen st)). set (r2 := randint 0 _ r1.2).
  intros H Hr. case_bool_decide as Hij.
  { by injection H as <-. }
  rewrite endpoints_with_gen in H.
  destruct (endpoints st r1.1 r2.1) as [[[[a b] c] d]|] eqn:He;
    simpl in H; [|done].
  destruct (_ && _); [|by injection H as <-].
  destruct (PrimFloat.ltb _ _); [|by injection H as <-].
  rewrite (commit_Some (with_gen _ (with_gen _ st)) _ _ _ _ _ _ He) in H.
  injection H as <-. simpl.
  destruct (endpoints_int_range _ _ _ _ _ _ _ He).
  apply Forall_insert; [apply Forall_insert|]; done.
Qed.

Lemma swap_body_ranged m w zeroSet k s s' :
  swap_body m w zeroSet k s = Some s' →
  Forall in_int_range (e_from s.1) → Forall in_int_range (e_from s'.1).
Proof.
  destruct s as [st dg]. intros H Hr. simpl in Hr.
  destruct (swap_body_Some _ _ _ _ _ _ _ H)
    as [[_ ->]|(_ & a & b & c & d & He &
         [[_ ->]|[(_ & _ & ->)|(_ & _ & [[_ ->]|(_ & st' & Hc & ->)])]])];
    simpl; try done.
  rewrite (commit_Some (with_gen _ (with_gen _ st)) _ _ _ _ _ _ He) in Hc.
  injection Hc as <-. simpl.
  destruct (endpoints_int_range _ _ _ _ _ _ _ He).
  apply Forall_insert; [apply Forall_insert|]; done.
Qed.

End Steps.

(** ** Step [k] of a run *)

Section Runs.
Context {R : Generator} {L : GeneratorLaws R}.

(** Step [k] of the uniform sampler: the states before and after it. *)
Lemma simple_run_step Re_from Re_to k swap_p seed rd :
  length Re_to = length Re_from → Re_from ≠ [] →
  let m := Z.of_nat (length Re_from) in
  ∃ st st',
    simple_run Re_from Re_to k swap_p seed rd = Some st ∧
    simple_run Re_from Re_to (S k) swap_p seed rd = Some st' ∧
    simple_body m swap_p st = Some st' ∧
    shape Re_from Re_to st ∧
    (NoDup (zip (to_int <$> Re_from) (to_int <$> Re_to)) → indexed st) ∧
    is_Some (endpoints st (proposal m (gen st)).1.1 (proposal m (gen st)).1.2).
Proof.
  intros Hlen Hne m.
  destruct (simple_run_inv Re_from Re_to k swap_p seed rd Hlen Hne)
    as (st & Hs & Hsh & Hidx).
  destruct (simple_run_inv Re_from Re_to (S k) swap_p seed rd Hlen Hne)
    as (st' & Hs' & _).
  exists st, st'. split; [done|]. split; [done|]. split.
  { unfold simple_run in Hs, Hs'.
    destruct (init Re_from Re_to seed rd) as [st0|]; simpl in Hs, Hs'; [|done].
    by rewrite Hs in Hs'. }
  split; [done|]. split; [done|].
  exact (proposal_endpoints Re_from Re_to st (gen st) Hlen Hne Hsh).
Qed.

(** Step [k] of the weighted sampler: the states before and after it, the
    zero set, and row [k] of the columns the call returns. *)
Lemma swap_run_step Re_from Re_to n w Rz_from Rz_to seed rd k :
  length Re_to = length Re_from → Re_from ≠ [] →
  length Re_from ≤ length Rz_from → length Re_from ≤ length Rz_to →
  k < n →
  let m := Z.of_nat (length Re_from) in
  ∃ s s1 out zs,
    swap_run Re_from Re_to n w Rz_from Rz_to seed rd k = Some s ∧
    swap_run Re_from Re_to n w Rz_from Rz_to seed rd (S k) = Some s1 ∧
    swap_n Re_from Re_to n w Rz_from Rz_to seed rd = Some out ∧
    zero_set (length Re_from) Rz_from Rz_to = Some zs ∧
    zs = list_to_set (take (length Re_from)
           (zip (to_int <$> Rz_from) (to_int <$> Rz_to))) ∧
    swap_body m w zs k s = Some s1 ∧
    row (wr_diag out) k = row s1.2 k ∧
    row s.2 k =
      (Some false, Some false, Some false, Some false, Some false,
       Some 0%float) ∧
    columns_of_length n s.2 ∧
    shape Re_from Re_to s.1 ∧
    (NoDup (zip (to_int <$> Re_from) (to_int <$> Re_to)) → indexed s.1) ∧
    is_Some (endpoints s.1 (proposal m (gen s.1)).1.1 (proposal m (gen s.1)).1.2).
Proof.
  intros Hlen Hne Hzf Hzt Hk m.
  destruct (swap_run_inv Re_from Re_to n w Rz_from Rz_to seed rd k
              Hlen Hne Hzf Hzt) as (s & Hs & Hsh & Hidx).
  destruct (swap_run_inv Re_from Re_to n w Rz_from Rz_to seed rd (S k)
              Hlen Hne Hzf Hzt) as (s1 & Hs1 & _).
  destruct (swap_run_inv Re_from Re_to n w Rz_from Rz_to seed rd n
              Hlen Hne Hzf Hzt) as (sn & Hsn & _).
  exists s, s1, (SwapResult (e_from sn.1) (e_to sn.1) sn.2),
    (list_to_set (take (length Re_from)
       (zip (to_int <$> Rz_from) (to_int <$> Rz_to)))).
  split; [done|]. split; [done|]. split.
  { unfold swap_n. by rewrite Hsn. }
  split; [by apply build_set_take|]. split; [done|].
  unfold swap_run, zero_set in Hs, Hs1, Hsn.
  rewrite init_Some in Hs, Hs1, Hsn by done.
  rewrite build_set_take in Hs, Hs1, Hsn by done.
  simpl in Hs, Hs1, Hsn. rewrite Hs in Hs1. simpl in Hs1.
  split; [done|]. split.
  { simpl. eapply swap_loop_row_stable; [|exact Hsn|exact Hk].
    simpl. rewrite Hs. exact Hs1. }
  split.
  { rewrite (swap_loop_row_later _ _ _ _ _ _ k Hs (le_n k)). simpl.
    by apply diag_init_row. }
  split.
  { eapply swap_loop_columns; [exact Hs|apply diag_init_columns]. }
  split; [done|]. split; [done|].
  exact (proposal_endpoints Re_from Re_to s.1 (gen s.1) Hlen Hne Hsh).
Qed.

(** A [from] column whose ids fit an [int] stays one through a run. *)
Lemma init_vectors Re_from Re_to seed rd st :
  init Re_from Re_to seed rd = Some st →
  e_from st = Re_from ∧ e_to st = Re_to.
Proof.
  unfold init. case_bool_decide; [done|].
  destruct (build_set _ _ _); simpl; [|done]. by intros [= <-].
Qed.

Lemma simple_run_ranged Re_from Re_to k swap_p seed rd st :
  Forall in_int_range Re_from →
  simple_run Re_from Re_to k swap_p seed rd = Some st →
  Forall in_int_range (e_from st).
Proof.
  intros Hr. unfold simple_run.
  destruct (init Re_from Re_to seed rd) as [st0|] eqn:H0; simpl; [|done].
  destruct (init_vectors _ _ _ _ _ H0) as [Hf _]. rewrite <- Hf in Hr.
  revert st. induction k as [|k IH]; simpl; intros st H.
  - by injection H as <-.
  - destruct (simple_loop _ _ k st0) as [st1|]; simpl in H; [|done].
    eapply simple_body_ranged; [exact H|]. by apply IH.
Qed.

Lemma swap_run_ranged Re_from Re_to n w Rz_from Rz_to seed rd k s :
  Forall in_int_range Re_from →
  swap_run Re_from Re_to n w Rz_from Rz_to seed rd k = Some s →
  Forall in_int_range (e_from s.1).
Proof.
  intros Hr. unfold swap_run.
  destruct (init Re_from Re_to seed rd) as [st0|] eqn:H0; simpl; [|done].
  destruct (init_vectors _ _ _ _ _ H0) as [Hf _]. rewrite <- Hf in Hr.
  destruct (zero_set _ _ _) as [zs|]; simpl; [|done].
  revert s. induction k as [|k IH]; simpl; intros s H.
  - by injection H as <-.
  - destruct (swap_loop _ _ _ k _) as [s1|]; simpl in H; [|done].
    eapply swap_body_ranged; [exact H|]. by apply IH.
Qed.

End Runs.

(** From the two vectors to the edge list, where the [to] ids fit an [int]:
    a step that exchanged the [from] fields of slots [i] and [j] left [(c,b)]
    and [(a,d)] there, and a step that wrote nothing left the list alone. *)
Lemma edges_effect {R : Generator} (st st' : chain) (i j a b c d : Z) :
  Forall in_int_range (e_to st) →
  endpoints st i j = Some (a, b, c, d) →
  e_to st' = e_to st →
  (e_from st' = <[Z.to_nat j := a]> (<[Z.to_nat i := c]> (e_from st)) →
   edges st' = <[Z.to_nat j := (a, d)]> (<[Z.to_nat i := (c, b)]> (edges st))) ∧
  (e_from st' = e_from st → edges st' = edges st).
Proof.
  intros Hr [(_ & _ & Hb) (_ & _ & Hd)]%endpoints_Some Hto.
  rewrite (to_int_fmap_id _ Hr) in Hb, Hd.
  unfold edges. rewrite Hto. split; intros ->; [|done].
  by apply edges_after_swap.
Qed.

(** ** The edge list along a run *)

(** C7. In both samplers, for [from] ids that fit an [int], the [from]
    values of the edge list after any number of steps are a rearrangement of
    the input's [from] values (the same multiset), and the [to] column is
    the input's, slot by slot. *)
Theorem degree_multisets_preserved {R : Generator} {L : GeneratorLaws R}
    (Re_from Re_to : list Z) (swap_p : float) (n : nat) (w : Z → Z → float)
    (Rz_from Rz_to : list Z) (seed rd : Z) (k : nat) :
  length Re_to = length Re_from → Re_from ≠ [] →
  length Re_from ≤ length Rz_from → length Re_from ≤ length Rz_to →
  Forall in_int_range Re_from →
  (∃ st, simple_run Re_from Re_to k swap_p seed rd = Some st ∧
         e_from st ≡ₚ Re_from ∧ e_to st = Re_to) ∧
  (∃ s, swap_run Re_from Re_to n w Rz_from Rz_to seed rd k = Some s ∧
        e_from s.1 ≡ₚ Re_from ∧ e_to s.1 = Re_to).
Proof.
  intros Hlen Hne Hzf Hzt Hrf. split.
  - destruct (simple_run_inv Re_from Re_to k swap_p seed rd Hlen Hne)
      as (st & Hrun & [Hto Hfrom] & _).
    pose proof (simple_run_ranged _ _ _ _ _ _ _ Hrf Hrun) as Hr.
    rewrite (to_int_fmap_id _ Hr), (to_int_fmap_id _ Hrf) in Hfrom.
    eauto.
  - destruct (swap_run_inv Re_from Re_to n w Rz_from Rz_to seed rd k
                Hlen Hne Hzf Hzt) as (s & Hrun & [Hto Hfrom] & _).
    pose proof (swap_run_ranged _ _ _ _ _ _ _ _ _ _ Hrf Hrun) as Hr.
    rewrite (to_int_fmap_id _ Hr), (to_int_fmap_id _ Hrf) in Hfrom.
    eauto.
Qed.

Lemma degree_multisets_preserved_witness :
  let R := Replay.generator [0; 1; 0; 1; 0; 2]%Z in
  Forall in_int_range [1; 3]%Z ∧
  (∃ st, simple_run [1; 3]%Z [2; 4]%Z 2 0.5%float 0 0 = Some st ∧
         e_from st ≡ₚ [1; 3]%Z ∧ e_to st = [2; 4]%Z) ∧
  (∃ s, swap_run [1; 3]%Z [2; 4]%Z 2 ones [9; 9]%Z [9; 9]%Z 0 0 2 = Some s ∧
        e_from s.1 ≡ₚ [1; 3]%Z ∧ e_to s.1 = [2; 4]%Z).
Proof.
  assert (Hrf : Forall in_int_range [1; 3]%Z) by (by repeat constructor).
  split; [exact Hrf|].
  apply (degree_multisets_preserved (L := replay_laws _));
    first [exact Hrf | simpl; first [lia | discriminate | reflexivity]].
Defined.

(** The range matters: an id beyond it is written back as the [int] it was
    read into. The swap of slots 0 and 1 of [(1,2), (4294967297,4)] leaves
    [INT_MIN] where 4294967297 was. *)
Lemma wide_id_written_back_converted :
  let R := Replay.generator [0; 1; 0]%Z in
  simple_swap_n [1; 4294967297]%Z [2; 4]%Z 1 0.5%float 0 0
    = Some (SimpleResult [-2147483648; 1]%Z [2; 4]%Z).
Proof. vm_compute. reflexivity. Qed.

(** C6. In both samplers, when the input is a simple graph on vertex ids
    that fit an [int], at every step boundary the edge hash set is the set
    of the pairs stored in the edge list, it has [m] elements, and the edge
    list holds no pair twice. *)
Theorem index_mirrors_edge_list {R : Generator} {L : GeneratorLaws R}
    (Re_from Re_to : list Z) (swap_p : float) (n : nat) (w : Z → Z → float)
    (Rz_from Rz_to : list Z) (seed rd : Z) (k : nat) :
  length Re_to = length Re_from → Re_from ≠ [] →
  length Re_from ≤ length Rz_from → length Re_from ≤ length Rz_to →
  Forall in_int_range Re_from → Forall in_int_range Re_to →
  NoDup (zip Re_from Re_to) →
  (∃ st, simple_run Re_from Re_to k swap_p seed rd = Some st ∧
         edgeSet st = list_to_set (edges st) ∧
         size (edgeSet st) = length Re_from ∧
         NoDup (edges st)) ∧
  (∃ s, swap_run Re_from Re_to n w Rz_from Rz_to seed rd k = Some s ∧
        edgeSet s.1 = list_to_set (edges s.1) ∧
        size (edgeSet s.1) = length Re_from ∧
        NoDup (edges s.1)).
Proof.
  intros Hlen Hne Hzf Hzt Hrf Hrt Hnd.
  assert (Hnd' : NoDup (zip (to_int <$> Re_from) (to_int <$> Re_to))).
  { by rewrite (to_int_fmap_id _ Hrf), (to_int_fmap_id _ Hrt). }
  assert (Hmirror : ∀ st, shape Re_from Re_to st → indexed st →
            Forall in_int_range (e_from st) →
            edgeSet st = list_to_set (edges st) ∧
            size (edgeSet st) = length Re_from ∧
            NoDup (edges st)).
  { intros st Hsh [Hset Hnd''] Hr.
    destruct (shape_lengths _ _ _ Hlen Hsh) as [Hf Ht].
    destruct Hsh as [Hto _]. rewrite <- Hto in Hrt.
    rewrite (seen_edges _ Hr Hrt) in Hset, Hnd''.
    split; [done|]. split; [|done].
    rewrite Hset, size_list_to_set by done.
    unfold edges. rewrite length_zip_with. lia. }
  split.
  - destruct (simple_run_inv Re_from Re_to k swap_p seed rd Hlen Hne)
      as (st & Hrun & Hsh & Hidx).
    exists st. split; [done|]. apply Hmirror; [done|by apply Hidx|].
    exact (simple_run_ranged _ _ _ _ _ _ _ Hrf Hrun).
  - destruct (swap_run_inv Re_from Re_to n w Rz_from Rz_to seed rd k
                Hlen Hne Hzf Hzt) as (s & Hrun & Hsh & Hidx).
    exists s. split; [done|]. apply Hmirror; [done|by apply Hidx|].
    exact (swap_run_ranged _ _ _ _ _ _ _ _ _ _ Hrf Hrun).
Qed.

Lemma index_mirrors_edge_list_witness :
  let R := Replay.generator [0; 1; 0; 1; 0; 2]%Z in
  Forall in_int_range [1; 3]%Z ∧ Forall in_int_range [2; 4]%Z ∧
  NoDup (zip [1; 3]%Z [2; 4]%Z) ∧
  (∃ st, simple_run [1; 3]%Z [2; 4]%Z 2 0.5%float 0 0 = Some st ∧
         edgeSet st = list_to_set (edges st) ∧
         size (edgeSet st) = 2 ∧
         NoDup (edges st)) ∧
  (∃ s, swap_run [1; 3]%Z [2; 4]%Z 2 ones [9; 9]%Z [9; 9]%Z 0 0 2 = Some s ∧
        edgeSet s.1 = list_to_set (edges s.1) ∧
        size (edgeSet s.1) = 2 ∧
        NoDup (edges s.1)).
Proof.
  assert (Hrf : Forall in_int_range [1; 3]%Z) by (by repeat constructor).
  assert (Hrt : Forall in_int_range [2; 4]%Z) by (by repeat constructor).
  assert (Hnd : NoDup (zip [1; 3]%Z [2; 4]%Z))
    by (apply (bool_decide_unpack _); by vm_compute).
  split; [exact Hrf|]. split; [exact Hrt|]. split; [exact Hnd|].
  apply (index_mirrors_edge_list (L := replay_laws _) [1; 3]%Z [2; 4]%Z);
    first [exact Hrf | exact Hrt | exact Hnd
          | simpl; first [lia | discriminate]].
Defined.

(** An edge list without self-loops, after slots [i] and [j] have become
    [(c,b)] and [(a,d)]: it holds a self-loop exactly when [a = d] or
    [c = b]. *)
Lemma self_loop_after_swap (l : list (Z * Z)) (i j : nat) (a b c d : Z) :
  i ≠ j → i < length l → j < length l →
  (∀ v, (v, v) ∉ l) →
  (∃ v, (v, v) ∈ <[j := (a, d)]> (<[i := (c, b)]> l)) ↔ a = d ∨ c = b.
Proof.
  intros Hij Hi Hj Hl. split.
  - intros [v Hv]. apply list_elem_of_lookup in Hv as [n Hn].
    destruct (decide (n = j)) as [->|Hnj].
    + rewrite list_lookup_insert_eq in Hn by (rewrite length_insert; lia).
      injection Hn; intros; left; congruence.
    + rewrite list_lookup_insert_ne in Hn by done.
      destruct (decide (n = i)) as [->|Hni].
      * rewrite list_lookup_insert_eq in Hn by lia.
        injection Hn; intros; right; congruence.
      * rewrite list_lookup_insert_ne in Hn by done.
        exfalso. apply (Hl v). by eapply list_elem_of_lookup_2.
  - intros [->| ->].
    + exists d. eapply list_elem_of_lookup_2.
      apply list_lookup_insert_eq. rewrite length_insert. lia.
    + exists b. eapply list_elem_of_lookup_2.
      rewrite list_lookup_insert_ne by done.
      apply list_lookup_insert_eq. lia.
Qed.

(** One step from an edge list without self-loops, on vertex ids that fit
    an [int]: a self-loop appears exactly when the step exchanges the
    [from] fields of two edges [(a,b)], [(c,d)] with [a = d] or [c = b]. *)
Lemma step_self_loop {R : Generator} (st st' : chain) (i j a b c d : Z)
    (swaps : bool) :
  Forall in_int_range (e_from st) → Forall in_int_range (e_to st) →
  endpoints st i j = Some (a, b, c, d) →
  e_to st' = e_to st →
  (swaps = true → i ≠ j) →
  (if swaps
   then e_from st' = <[Z.to_nat j := a]> (<[Z.to_nat i := c]> (e_from st))
   else e_from st' = e_from st) →
  (∀ v, (v, v) ∉ edges st) →
  (∃ v, (v, v) ∈ edges st') ↔ swaps = true ∧ (a = d ∨ c = b).
Proof.
  intros Hrf Hrt He Hto Hij Heff Hl.
  destruct (edges_effect st st' _ _ _ _ _ _ Hrt He Hto) as [Hswap Hsame].
  destruct (endpoints_edges _ _ _ _ _ _ _ He) as [Hi Hj].
  rewrite (seen_edges _ Hrf Hrt) in Hi, Hj.
  apply lookup_lt_Some in Hi, Hj.
  apply endpoints_Some in He as [(Hi0 & _) (Hj0 & _)].
  destruct swaps.
  - rewrite (Hswap Heff).
    rewrite self_loop_after_swap; [tauto| |done..].
    intros Hn. apply Hij; [done|]. lia.
  - rewrite (Hsame Heff). split; [|by intros [? _]].
    intros [v Hv]. by destruct (Hl v).
Qed.

(** C5, as the code has it. In both samplers, on vertex ids that fit an
    [int], a step from an edge list without self-loops leaves one with a
    self-loop exactly when it commits the swap of two edges [(a,b)] and
    [(c,d)] with [a = d] or [c = b]: the checkerboard test only keeps
    [(a,d)] and [(c,b)] from being edges already, and such a swap writes
    [(a,a)] or [(b,b)]. Every other step keeps the edge list free of
    self-loops. See [self_loop_created] for the claim as stated. *)
Theorem self_loop_only_from_end_to_end_swap
    {R : Generator} {L : GeneratorLaws R}
    (Re_from Re_to : list Z) (swap_p : float) (n : nat) (w : Z → Z → float)
    (Rz_from Rz_to : list Z) (seed rd : Z) (k : nat) :
  length Re_to = length Re_from → Re_from ≠ [] →
  length Re_from ≤ length Rz_from → length Re_from ≤ length Rz_to →
  Forall in_int_range Re_from → Forall in_int_range Re_to →
  k < n →
  let m := Z.of_nat (length Re_from) in
  (∀ st, simple_run Re_from Re_to k swap_p seed rd = Some st →
     (∀ v, (v, v) ∉ edges st) →
     let i := (proposal m (gen st)).1.1 in
     let j := (proposal m (gen st)).1.2 in
     let g := (proposal m (gen st)).2 in
     ∃ st' a b c d,
       simple_run Re_from Re_to (S k) swap_p seed rd = Some st' ∧
       endpoints st i j = Some (a, b, c, d) ∧
       let swaps :=
         negb (bool_decide (i = j))
         && (negb (found (edgeSet st) (a, d))
             && negb (found (edgeSet st) (c, b)))
         && PrimFloat.ltb (randu g).1 swap_p in
       ((∃ v, (v, v) ∈ edges st') ↔ swaps = true ∧ (a = d ∨ c = b))) ∧
  (∀ s, swap_run Re_from Re_to n w Rz_from Rz_to seed rd k = Some s →
     (∀ v, (v, v) ∉ edges s.1) →
     let i := (proposal m (gen s.1)).1.1 in
     let j := (proposal m (gen s.1)).1.2 in
     let g := (proposal m (gen s.1)).2 in
     ∃ s1 zs a b c d,
       swap_run Re_from Re_to n w Rz_from Rz_to seed rd (S k) = Some s1 ∧
       zero_set (length Re_from) Rz_from Rz_to = Some zs ∧
       endpoints s.1 i j = Some (a, b, c, d) ∧
       let swaps :=
         negb (bool_decide (i = j))
         && negb (found (edgeSet s.1) (a, d) || found (edgeSet s.1) (c, b))
         && negb (found zs (a, d))
         && PrimFloat.ltb (randu g).1 (ratio w a b c d) in
       ((∃ v, (v, v) ∈ edges s1.1) ↔ swaps = true ∧ (a = d ∨ c = b))).
Proof.
  intros Hlen Hne Hzf Hzt Hrf Hrt Hk m. split.
  - intros st Hrun Hl i j g.
    destruct (simple_run_step Re_from Re_to k swap_p seed rd Hlen Hne)
      as (st0 & st' & Hs & Hs' & Hb & [Hto _] & _ & [[[[a b] c] d] He]).
    rewrite Hrun in Hs. injection Hs as <-.
    exists st', a, b, c, d. split; [done|]. split; [done|].
    destruct (simple_body_effect _ _ _ _ _ _ _ _ Hb He) as [Heff Hto'].
    pose proof (simple_run_ranged _ _ _ _ _ _ _ Hrf Hrun) as Hr.
    rewrite <- Hto in Hrt. cbv zeta.
    apply (step_self_loop st st' i j a b c d);
      [done|done|exact He|done| | |done].
    + intros Hsw Hij. by rewrite (bool_decide_eq_true_2 _ Hij) in Hsw.
    + subst i j g m. destruct (_ && _ && PrimFloat.ltb _ _); by destruct Heff.
  - intros [st dg] Hrun Hl i j g.
    destruct (swap_run_step Re_from Re_to n w Rz_from Rz_to seed rd k
                Hlen Hne Hzf Hzt Hk)
      as (s0 & s1 & out & zs & Hs & Hs1 & _ & Hzs & _ & Hb & _ & Hblank &
          Hcols & [Hto _] & _ & [[[[a b] c] d] He]).
    rewrite Hrun in Hs. injection Hs as <-.
    exists s1, zs, a, b, c, d. split; [done|]. split; [done|]. split; [done|].
    destruct (swap_body_effect _ _ _ _ _ _ _ n _ _ _ _ Hb Hcols Hk Hblank He)
      as (_ & Heff & Hto').
    pose proof (swap_run_ranged _ _ _ _ _ _ _ _ _ _ Hrf Hrun) as Hr.
    rewrite <- Hto in Hrt. cbv zeta.
    apply (step_self_loop st s1.1 i j a b c d);
      [done|done|exact He|done| | |done].
    + intros Hsw Hij. by rewrite (bool_decide_eq_true_2 _ Hij) in Hsw.
    + subst i j g m. unfold checkerboard_fails in Heff. cbn [fst] in *.
      destruct (_ && _ && _ && PrimFloat.ltb _ _); by destruct Heff.
Qed.

Lemma self_loop_only_from_end_to_end_swap_witness :
  let R := Replay.generator [0; 1; 0]%Z in
  let st := Chain [1; 3]%Z [2; 1]%Z (list_to_set [(1, 2); (3, 1)]%Z)
              (mt19937 0) in
  Forall in_int_range [1; 3]%Z ∧ Forall in_int_range [2; 1]%Z ∧
  simple_run [1; 3]%Z [2; 1]%Z 0 0.5%float 0 0 = Some st ∧
  swap_run [1; 3]%Z [2; 1]%Z 1 ones [9; 9]%Z [9; 9]%Z 0 0 0
    = Some (st, diag_init 1) ∧
  (∀ v : Z, (v, v) ∉ edges st) ∧
  (∃ st' a b c d,
     simple_run [1; 3]%Z [2; 1]%Z 1 0.5%float 0 0 = Some st' ∧
     endpoints st (proposal 2 (gen st)).1.1 (proposal 2 (gen st)).1.2
       = Some (a, b, c, d) ∧
     ((∃ v, (v, v) ∈ edges st') ↔
      negb (bool_decide ((proposal 2 (gen st)).1.1 = (proposal 2 (gen st)).1.2))
      && (negb (found (edgeSet st) (a, d)) && negb (found (edgeSet st) (c, b)))
      && PrimFloat.ltb (randu (proposal 2 (gen st)).2).1 0.5%float = true ∧
      (a = d ∨ c = b))) ∧
  (∃ s1 zs a b c d,
     swap_run [1; 3]%Z [2; 1]%Z 1 ones [9; 9]%Z [9; 9]%Z 0 0 1 = Some s1 ∧
     zero_set 2 [9; 9]%Z [9; 9]%Z = Some zs ∧
     endpoints st (proposal 2 (gen st)).1.1 (proposal 2 (gen st)).1.2
       = Some (a, b, c, d) ∧
     ((∃ v, (v, v) ∈ edges s1.1) ↔
      negb (bool_decide ((proposal 2 (gen st)).1.1 = (proposal 2 (gen st)).1.2))
      && negb (found (edgeSet st) (a, d) || found (edgeSet st) (c, b))
      && negb (found zs (a, d))
      && PrimFloat.ltb (randu (proposal 2 (gen st)).2).1 (ratio ones a b c d)
         = true ∧
      (a = d ∨ c = b))).
Proof.
  intros R st.
  assert (Hrf : Forall in_int_range [1; 3]%Z) by (by repeat constructor).
  assert (Hrt : Forall in_int_range [2; 1]%Z) by (by repeat constructor).
  assert (Hs : simple_run [1; 3]%Z [2; 1]%Z 0 0.5%float 0 0 = Some st)
    by (vm_compute; reflexivity).
  assert (Hw : swap_run [1; 3]%Z [2; 1]%Z 1 ones [9; 9]%Z [9; 9]%Z 0 0 0
               = Some (st, diag_init 1)) by (vm_compute; reflexivity).
  assert (Hl : ∀ v : Z, (v, v) ∉ edges st).
  { intros v Hv. unfold edges in Hv. simpl in Hv.
    apply elem_of_cons in Hv as [Hv|Hv]; [injection Hv; intros; lia|].
    apply elem_of_cons in Hv as [Hv|Hv]; [injection Hv; intros; lia|].
    by apply elem_of_nil in Hv. }
  split; [exact Hrf|]. split; [exact Hrt|]. split; [exact Hs|].
  split; [exact Hw|]. split; [exact Hl|].
  assert (Hne : [1; 3]%Z ≠ []) by discriminate.
  assert (Hz : length [1; 3]%Z ≤ length [9; 9]%Z) by (simpl; lia).
  assert (Hk : 0 < 1) by lia.
  destruct (self_loop_only_from_end_to_end_swap (R := R) (L := replay_laws _)
              [1; 3]%Z [2; 1]%Z 0.5%float 1 ones [9; 9]%Z [9; 9]%Z 0 0 0
              eq_refl Hne Hz Hz Hrf Hrt Hk) as [Hsimple Hswap].
  split.
  - exact (Hsimple st Hs Hl).
  - exact (Hswap (st, diag_init 1) Hw Hl).
Defined.

(** ** The acceptance ratio *)

(** C9. In [swap_n], on every step [k] that passes the three tests (the two
    slots [i], [j] drawn are distinct, neither [(a,d)] nor [(c,b)] is in the
    edge hash set, and [(a,d)] is not in the zero set), [can_swap] is
    recorded and the column [swap_p] holds the quotient
    [W(a,d)*W(c,b) / (W(a,b)*W(c,d))] of the four weights as computed, with
    no clamping; and when that quotient is at least one, [did_swap] is
    recorded and the two [from] fields are exchanged, whatever the draw [u]
    in [0, 1) was. Here [(a,b)] and [(c,d)] are the edges in the slots [i]
    and [j], as read at step [k]. *)
Theorem swap_p_recorded_unclamped {R : Generator} {L : GeneratorLaws R}
    (Re_from Re_to : list Z) (n : nat) (w : Z → Z → float)
    (Rz_from Rz_to : list Z) (seed rd : Z) (k : nat)
    (s : chain * diag) (zs : gset (Z * Z)) (a b c d : Z) :
  length Re_to = length Re_from → Re_from ≠ [] →
  length Re_from ≤ length Rz_from → length Re_from ≤ length Rz_to →
  k < n →
  swap_run Re_from Re_to n w Rz_from Rz_to seed rd k = Some s →
  zero_set (length Re_from) Rz_from Rz_to = Some zs →
  let m := Z.of_nat (length Re_from) in
  let i := (proposal m (gen s.1)).1.1 in
  let j := (proposal m (gen s.1)).1.2 in
  endpoints s.1 i j = Some (a, b, c, d) →
  i ≠ j →
  found (edgeSet s.1) (a, d) = false →
  found (edgeSet s.1) (c, b) = false →
  found zs (a, d) = false →
  let swap_p :=
    PrimFloat.div (PrimFloat.mul (w a d) (w c b))
                  (PrimFloat.mul (w a b) (w c d)) in
  ∃ s1 out,
    swap_run Re_from Re_to n w Rz_from Rz_to seed rd (S k) = Some s1 ∧
    swap_n Re_from Re_to n w Rz_from Rz_to seed rd = Some out ∧
    can_swap (wr_diag out) !! k = Some true ∧
    swap_ps (wr_diag out) !! k = Some swap_p ∧
    (PrimFloat.leb 1 swap_p = true →
     did_swap (wr_diag out) !! k = Some true ∧
     e_from s1.1 = <[Z.to_nat j := a]> (<[Z.to_nat i := c]> (e_from s.1))).
Proof.
  intros Hlen Hne Hzf Hzt Hk Hs Hzs m i j He Hij Had Hcb Hz swap_p.
  destruct (swap_run_step Re_from Re_to n w Rz_from Rz_to seed rd k
              Hlen Hne Hzf Hzt Hk)
    as (s' & s1 & out & zs' & Hs' & Hs1 & Hout & Hzs' & _ & Hb & Hrow &
        Hblank & Hcols & _).
  rewrite Hs in Hs'. injection Hs' as <-.
  rewrite Hzs in Hzs'. injection Hzs' as <-.
  exists s1, out. split; [done|]. split; [done|].
  subst i j m. destruct s as [st dg]. cbn [fst snd] in *.
  destruct (swap_body_effect _ _ _ _ _ _ _ n _ _ _ _ Hb Hcols Hk Hblank He)
    as (Hrow1 & Heff & _).
  rewrite <- Hrow in Hrow1.
  pose proof (randu_range (proposal (Z.of_nat (length Re_from)) (gen st)).2)
    as [_ Hu].
  unfold checkerboard_fails in Hrow1, Heff.
  rewrite (bool_decide_eq_false_2 _ Hij), Had, Hcb, Hz in Hrow1, Heff.
  cbn [negb andb orb] in Hrow1, Heff.
  injection Hrow1 as _ _ _ Hcan Hdid Hps.
  split; [done|]. split; [done|].
  intros Hp.
  assert (Hlt : PrimFloat.ltb
                  (randu (proposal (Z.of_nat (length Re_from)) (gen st)).2).1
                  (ratio w a b c d) = true)
    by exact (ltb_below_one_le _ _ Hu Hp).
  rewrite Hlt in Heff. split; [|by destruct Heff].
  rewrite Hdid. exact (f_equal Some Hlt).
Qed.

Lemma swap_p_recorded_unclamped_witness :
  let R := Replay.generator [0; 1; 3]%Z in
  let s := (Chain [1; 3]%Z [2; 4]%Z (list_to_set [(1, 2); (3, 4)]%Z)
              (mt19937 0), diag_init 1) in
  swap_run [1; 3]%Z [2; 4]%Z 1 ones [9; 9]%Z [9; 9]%Z 0 0 0 = Some s ∧
  (proposal 2 (gen s.1)).1 = (0, 1)%Z ∧
  endpoints s.1 0 1 = Some (1, 2, 3, 4)%Z ∧
  found (edgeSet s.1) (1, 4)%Z = false ∧
  found (edgeSet s.1) (3, 2)%Z = false ∧
  found (list_to_set [(9, 9); (9, 9)]%Z) (1, 4)%Z = false ∧
  ∃ s1 out,
    swap_run [1; 3]%Z [2; 4]%Z 1 ones [9; 9]%Z [9; 9]%Z 0 0 1 = Some s1 ∧
    swap_n [1; 3]%Z [2; 4]%Z 1 ones [9; 9]%Z [9; 9]%Z 0 0 = Some out ∧
    can_swap (wr_diag out) !! 0 = Some true ∧
    swap_ps (wr_diag out) !! 0 = Some 1%float ∧
    did_swap (wr_diag out) !! 0 = Some true ∧
    e_from s1.1 = [3; 1]%Z.
Proof.
  intros R s.
  assert (Hs : swap_run [1; 3]%Z [2; 4]%Z 1 ones [9; 9]%Z [9; 9]%Z 0 0 0
               = Some s) by (vm_compute; reflexivity).
  assert (Hz : zero_set 2 [9; 9]%Z [9; 9]%Z
               = Some (list_to_set [(9, 9); (9, 9)]%Z))
    by (vm_compute; reflexivity).
  assert (He : endpoints s.1 0 1 = Some (1, 2, 3, 4)%Z) by reflexivity.
  assert (Had : found (edgeSet s.1) (1, 4)%Z = false)
    by (vm_compute; reflexivity).
  assert (Hcb : found (edgeSet s.1) (3, 2)%Z = false)
    by (vm_compute; reflexivity).
  assert (Hzad : found (list_to_set [(9, 9); (9, 9)]%Z) (1, 4)%Z = false)
    by (vm_compute; reflexivity).
  repeat (split; [first [done | reflexivity]|]).
  assert (Hne : [1; 3]%Z ≠ []) by discriminate.
  assert (Hlz : length [1; 3]%Z ≤ length [9; 9]%Z) by (simpl; lia).
  assert (Hk : 0 < 1) by lia.
  assert (Hij : (proposal 2 (gen s.1)).1.1 ≠ (proposal 2 (gen s.1)).1.2)
    by (vm_compute; discriminate).
  destruct (swap_p_recorded_unclamped (L := replay_laws _)
              [1; 3]%Z [2; 4]%Z 1 ones [9; 9]%Z [9; 9]%Z 0 0 0
              s (list_to_set [(9, 9); (9, 9)]%Z) 1 2 3 4
              eq_refl Hne Hlz Hlz Hk Hs Hz He Hij Had Hcb Hzad)
    as (s1 & out & Hs1 & Hout & Hcan & Hps & Hacc).
  destruct (Hacc eq_refl) as [Hdid Hef].
  exists s1, out. repeat (split; [done|]). exact Hef.
Defined.

(** ** What a step does to the edge list *)

(** Step [k] of [simple_swap_n] reads the edges [(a,b)] and [(c,d)] of the
    two slots [i], [j] it drew into [int]s. For vertex ids that fit an
    [int], it rewrites the edge list exactly when [i ≠ j], neither [(a,d)]
    nor [(c,b)] is in the hash set and the real draw is below [swap_p]; then
    slot [i] becomes [(c,b)], slot [j] becomes [(a,d)], every other slot
    stays, and the hash set exchanges the two old pairs for the two new
    ones. Otherwise edge list and hash set are untouched. *)
Theorem uniform_step_effect {R : Generator} {L : GeneratorLaws R}
    (Re_from Re_to : list Z) (swap_p : float) (seed rd : Z) (k : nat) :
  length Re_to = length Re_from → Re_from ≠ [] →
  Forall in_int_range Re_from → Forall in_int_range Re_to →
  ∃ st st',
    simple_run Re_from Re_to k swap_p seed rd = Some st ∧
    simple_run Re_from Re_to (S k) swap_p seed rd = Some st' ∧
    let m := Z.of_nat (length Re_from) in
    let i := (proposal m (gen st)).1.1 in
    let j := (proposal m (gen st)).1.2 in
    let g := (proposal m (gen st)).2 in
    ∃ a b c d, endpoints st i j = Some (a, b, c, d) ∧
      let swaps :=
        negb (bool_decide (i = j))
        && (negb (found (edgeSet st) (a, d)) && negb (found (edgeSet st) (c, b)))
        && PrimFloat.ltb (randu g).1 swap_p in
      (swaps = true →
       edges st' = <[Z.to_nat j := (a, d)]> (<[Z.to_nat i := (c, b)]> (edges st)) ∧
       edgeSet st' =
         (({[ (c, b) ]} ∪ ({[ (a, d) ]} ∪ edgeSet st)) ∖ {[ (a, b) ]})
           ∖ {[ (c, d) ]}) ∧
      (swaps = false → edges st' = edges st ∧ edgeSet st' = edgeSet st).
Proof.
  intros Hlen Hne _ Hrt.
  destruct (simple_run_step Re_from Re_to k swap_p seed rd Hlen Hne)
    as (st & st' & Hs & Hs' & Hb & [Hto _] & _ & [[[[a b] c] d] He]).
  exists st, st'. split; [done|]. split; [done|].
  exists a, b, c, d. split; [done|].
  destruct (simple_body_effect _ _ _ _ _ _ _ _ Hb He) as [Heff Hto'].
  rewrite <- Hto in Hrt.
  destruct (edges_effect st st' _ _ _ _ _ _ Hrt He Hto') as [Hswap Hsame].
  destruct (_ && _ && PrimFloat.ltb _ _); destruct Heff as [Hf Hset];
    split; intros; try done; split; auto.
Qed.

Lemma uniform_step_effect_witness :
  let R := Replay.generator [0; 1; 0]%Z in
  ∃ st st',
    simple_run [1; 3]%Z [2; 4]%Z 0 0.5%float 0 0 = Some st ∧
    simple_run [1; 3]%Z [2; 4]%Z 1 0.5%float 0 0 = Some st' ∧
    let i := (proposal 2 (gen st)).1.1 in
    let j := (proposal 2 (gen st)).1.2 in
    let g := (proposal 2 (gen st)).2 in
    ∃ a b c d, endpoints st i j = Some (a, b, c, d) ∧
      let swaps :=
        negb (bool_decide (i = j))
        && (negb (found (edgeSet st) (a, d)) && negb (found (edgeSet st) (c, b)))
        && PrimFloat.ltb (randu g).1 0.5%float in
      (swaps = true →
       edges st' = <[Z.to_nat j := (a, d)]> (<[Z.to_nat i := (c, b)]> (edges st)) ∧
       edgeSet st' =
         (({[ (c, b) ]} ∪ ({[ (a, d) ]} ∪ edgeSet st)) ∖ {[ (a, b) ]})
           ∖ {[ (c, d) ]}) ∧
      (swaps = false → edges st' = edges st ∧ edgeSet st' = edgeSet st).
Proof.
  apply (uniform_step_effect (L := replay_laws _) [1; 3]%Z [2; 4]%Z);
    simpl; first [lia | discriminate | by repeat constructor].
Defined.

(** In [swap_n], row [k] of the diagnostics records the path step [k] took,
    for the edges [(a,b)], [(c,d)] of the two slots [i], [j] it drew:
    [same_edge] says whether [i = j]; [can_swap] says that [i ≠ j], that
    neither [(a,d)] nor [(c,b)] is in the edge hash set and that [(a,d)] is
    not in the zero set; [swap_p] is the weight ratio when [can_swap] holds
    and zero otherwise; [did_swap] says that [can_swap] holds and the real
    draw was below the ratio. *)
Theorem diagnostics_record_the_path {R : Generator} {L : GeneratorLaws R}
    (Re_from Re_to : list Z) (n : nat) (w : Z → Z → float)
    (Rz_from Rz_to : list Z) (seed rd : Z) (k : nat) :
  length Re_to = length Re_from → Re_from ≠ [] →
  length Re_from ≤ length Rz_from → length Re_from ≤ length Rz_to →
  k < n →
  ∃ s out zs,
    swap_run Re_from Re_to n w Rz_from Rz_to seed rd k = Some s ∧
    swap_n Re_from Re_to n w Rz_from Rz_to seed rd = Some out ∧
    zero_set (length Re_from) Rz_from Rz_to = Some zs ∧
    let m := Z.of_nat (length Re_from) in
    let i := (proposal m (gen s.1)).1.1 in
    let j := (proposal m (gen s.1)).1.2 in
    let g := (proposal m (gen s.1)).2 in
    ∃ a b c d, endpoints s.1 i j = Some (a, b, c, d) ∧
      let passes :=
        negb (bool_decide (i = j))
        && negb (found (edgeSet s.1) (a, d) || found (edgeSet s.1) (c, b))
        && negb (found zs (a, d)) in
      same_edge (wr_diag out) !! k = Some (bool_decide (i = j)) ∧
      can_swap (wr_diag out) !! k = Some passes ∧
      swap_ps (wr_diag out) !! k =
        Some (if passes then ratio w a b c d else 0%float) ∧
      did_swap (wr_diag out) !! k =
        Some (passes && PrimFloat.ltb (randu g).1 (ratio w a b c d)).
Proof.
  intros Hlen Hne Hzf Hzt Hk.
  destruct (swap_run_step Re_from Re_to n w Rz_from Rz_to seed rd k
              Hlen Hne Hzf Hzt Hk)
    as (s & s1 & out & zs & Hs & _ & Hout & Hzs & _ & Hb & Hrow & Hblank &
        Hcols & _ & _ & [[[[a b] c] d] He]).
  exists s, out, zs. split; [done|]. split; [done|]. split; [done|].
  exists a, b, c, d. split; [done|].
  destruct s as [st dg].
  destruct (swap_body_effect _ _ _ _ _ _ _ n _ _ _ _ Hb Hcols Hk Hblank He)
    as (Hrow1 & _).
  rewrite <- Hrow in Hrow1. by injection Hrow1 as -> _ _ -> -> ->.
Qed.

Lemma diagnostics_record_the_path_witness :
  let R := Replay.generator [0; 1; 0]%Z in
  ∃ s out zs,
    swap_run [1; 3]%Z [2; 4]%Z 1 ones [9; 9]%Z [9; 9]%Z 0 0 0 = Some s ∧
    swap_n [1; 3]%Z [2; 4]%Z 1 ones [9; 9]%Z [9; 9]%Z 0 0 = Some out ∧
    zero_set 2 [9; 9]%Z [9; 9]%Z = Some zs ∧
    let i := (proposal 2 (gen s.1)).1.1 in
    let j := (proposal 2 (gen s.1)).1.2 in
    let g := (proposal 2 (gen s.1)).2 in
    ∃ a b c d, endpoints s.1 i j = Some (a, b, c, d) ∧
      let passes :=
        negb (bool_decide (i = j))
        && negb (found (edgeSet s.1) (a, d) || found (edgeSet s.1) (c, b))
        && negb (found zs (a, d)) in
      same_edge (wr_diag out) !! 0 = Some (bool_decide (i = j)) ∧
      can_swap (wr_diag out) !! 0 = Some passes ∧
      swap_ps (wr_diag out) !! 0 =
        Some (if passes then ratio ones a b c d else 0%float) ∧
      did_swap (wr_diag out) !! 0 =
        Some (passes && PrimFloat.ltb (randu g).1 (ratio ones a b c d)).
Proof.
  apply (diagnostics_record_the_path (L := replay_laws _) [1; 3]%Z [2; 4]%Z 1
           ones [9; 9]%Z [9; 9]%Z 0 0 0);
    simpl; first [lia | discriminate].
Defined.

(** In [swap_n], [did_swap[k]] tells what step [k] did to the edge list,
    for [to] ids that fit an [int] (the edges [(a,b)], [(c,d)] are the two
    slots as read into [int]s). When it is true, the two slots were distinct,
    neither [(a,d)] nor [(c,b)] was in the hash set, [(a,d)] was not in the
    zero set, and the step put [(c,b)] in slot [i] and [(a,d)] in slot [j],
    leaving every other slot and the whole [to] column as they were. When it
    is false, edge list and hash set are untouched. *)
Theorem weighted_step_effect {R : Generator} {L : GeneratorLaws R}
    (Re_from Re_to : list Z) (n : nat) (w : Z → Z → float)
    (Rz_from Rz_to : list Z) (seed rd : Z) (k : nat) :
  length Re_to = length Re_from → Re_from ≠ [] →
  length Re_from ≤ length Rz_from → length Re_from ≤ length Rz_to →
  Forall in_int_range Re_to →
  k < n →
  ∃ s s1 out zs,
    swap_run Re_from Re_to n w Rz_from Rz_to seed rd k = Some s ∧
    swap_run Re_from Re_to n w Rz_from Rz_to seed rd (S k) = Some s1 ∧
    swap_n Re_from Re_to n w Rz_from Rz_to seed rd = Some out ∧
    zero_set (length Re_from) Rz_from Rz_to = Some zs ∧
    let m := Z.of_nat (length Re_from) in
    let i := (proposal m (gen s.1)).1.1 in
    let j := (proposal m (gen s.1)).1.2 in
    ∃ a b c d, endpoints s.1 i j = Some (a, b, c, d) ∧
      e_to s1.1 = e_to s.1 ∧
      (did_swap (wr_diag out) !! k = Some true →
       i ≠ j ∧ ((a, d) ∉ edgeSet s.1) ∧ ((c, b) ∉ edgeSet s.1) ∧ ((a, d) ∉ zs) ∧
       edges s1.1
         = <[Z.to_nat j := (a, d)]> (<[Z.to_nat i := (c, b)]> (edges s.1)) ∧
       edgeSet s1.1 =
         (({[ (c, b) ]} ∪ ({[ (a, d) ]} ∪ edgeSet s.1)) ∖ {[ (a, b) ]})
           ∖ {[ (c, d) ]}) ∧
      (did_swap (wr_diag out) !! k = Some false →
       edges s1.1 = edges s.1 ∧ edgeSet s1.1 = edgeSet s.1).
Proof.
  intros Hlen Hne Hzf Hzt Hrt Hk.
  destruct (swap_run_step Re_from Re_to n w Rz_from Rz_to seed rd k
              Hlen Hne Hzf Hzt Hk)
    as (s & s1 & out & zs & Hs & Hs1 & Hout & Hzs & _ & Hb & Hrow & Hblank &
        Hcols & [Hsto _] & _ & [[[[a b] c] d] He]).
  exists s, s1, out, zs. do 4 (split; [done|]).
  exists a, b, c, d. split; [done|].
  destruct s as [st dg].
  destruct (swap_body_effect _ _ _ _ _ _ _ n _ _ _ _ Hb Hcols Hk Hblank He)
    as (Hrow1 & Heff0 & Hto).
  rewrite <- Hrow in Hrow1. injection Hrow1 as _ _ _ _ Hdid _.
  simpl in Hsto. rewrite <- Hsto in Hrt.
  destruct (edges_effect st s1.1 _ _ _ _ _ _ Hrt He Hto) as [Hswap Hsame].
  assert (Heff :
    if negb (bool_decide ((proposal (Z.of_nat (length Re_from)) (gen st)).1.1
                          = (proposal (Z.of_nat (length Re_from)) (gen st)).1.2))
       && negb (checkerboard_fails (edgeSet st) a b c d)
       && negb (found zs (a, d))
       && PrimFloat.ltb
            (randu (proposal (Z.of_nat (length Re_from)) (gen st)).2).1
            (ratio w a b c d)
    then edges s1.1
           = <[Z.to_nat (proposal (Z.of_nat (length Re_from)) (gen st)).1.2
                 := (a, d)]>
               (<[Z.to_nat (proposal (Z.of_nat (length Re_from)) (gen st)).1.1
                    := (c, b)]> (edges st)) ∧
         edgeSet s1.1 =
           (({[ (c, b) ]} ∪ ({[ (a, d) ]} ∪ edgeSet st)) ∖ {[ (a, b) ]})
             ∖ {[ (c, d) ]}
    else edges s1.1 = edges st ∧ edgeSet s1.1 = edgeSet st).
  { destruct (_ && _ && _ && PrimFloat.ltb _ _); destruct Heff0; auto. }
  clear Heff0 Hswap Hsame.
  split; [done|]. rewrite Hdid. simpl in *.
  destruct (negb (bool_decide _)) eqn:Hij; simpl in *.
  2:{ split; [done|]. by intros _. }
  apply negb_true_iff, bool_decide_eq_false in Hij.
  destruct (checkerboard_fails _ a b c d) eqn:Hf; simpl in *.
  { split; [done|]. by intros _. }
  apply orb_false_iff in Hf as [Had%found_false Hcb%found_false].
  destruct (found zs (a, d)) eqn:Hz; simpl in *.
  { split; [done|]. by intros _. }
  apply found_false in Hz.
  destruct (PrimFloat.ltb _ _); simpl in *.
  - split; [|done]. intros _. by destruct Heff.
  - split; [done|]. by intros _.
Qed.

Lemma weighted_step_effect_witness :
  let R := Replay.generator [0; 1; 0]%Z in
  ∃ s s1 out zs,
    swap_run [1; 3]%Z [2; 4]%Z 1 ones [9; 9]%Z [9; 9]%Z 0 0 0 = Some s ∧
    swap_run [1; 3]%Z [2; 4]%Z 1 ones [9; 9]%Z [9; 9]%Z 0 0 1 = Some s1 ∧
    swap_n [1; 3]%Z [2; 4]%Z 1 ones [9; 9]%Z [9; 9]%Z 0 0 = Some out ∧
    zero_set 2 [9; 9]%Z [9; 9]%Z = Some zs ∧
    let i := (proposal 2 (gen s.1)).1.1 in
    let j := (proposal 2 (gen s.1)).1.2 in
    ∃ a b c d, endpoints s.1 i j = Some (a, b, c, d) ∧
      e_to s1.1 = e_to s.1 ∧
      (did_swap (wr_diag out) !! 0 = Some true →
       i ≠ j ∧ ((a, d) ∉ edgeSet s.1) ∧ ((c, b) ∉ edgeSet s.1) ∧ ((a, d) ∉ zs) ∧
       edges s1.1
         = <[Z.to_nat j := (a, d)]> (<[Z.to_nat i := (c, b)]> (edges s.1)) ∧
       edgeSet s1.1 =
         (({[ (c, b) ]} ∪ ({[ (a, d) ]} ∪ edgeSet s.1)) ∖ {[ (a, b) ]})
           ∖ {[ (c, d) ]}) ∧
      (did_swap (wr_diag out) !! 0 = Some false →
       edges s1.1 = edges s.1 ∧ edgeSet s1.1 = edgeSet s.1).
Proof.
  apply (weighted_step_effect (L := replay_laws _) [1; 3]%Z [2; 4]%Z 1
           ones [9; 9]%Z [9; 9]%Z 0 0 0);
    simpl; first [lia | discriminate | by repeat constructor].
Defined.

(** ** Proposals that cannot be taken *)

(** In a state whose hash set mirrors the edge list, two slots whose edges
    share their [from] end or their [to] end fail the checkerboard test:
    [(a,d)] is one of the two edges. *)
Lemma shared_end_is_an_edge {R : Generator} st i j a b c d :
  indexed st →
  endpoints st i j = Some (a, b, c, d) →
  a = c ∨ b = d →
  found (edgeSet st) (a, d) = true.
Proof.
  intros [Hset _] He Hshare.
  destruct (endpoints_edges _ _ _ _ _ _ _ He) as [Hi Hj].
  apply found_true. rewrite Hset, elem_of_list_to_set.
  destruct Hshare as [->| ->].
  - eapply list_elem_of_lookup_2, Hj.
  - eapply list_elem_of_lookup_2, Hi.
Qed.

(** On a simple input graph whose vertex ids fit an [int], a step of either
    sampler whose two edges [(a,b)], [(c,d)] share an endpoint ([a = c] or
    [b = d]) never changes the edge list; [swap_n] records neither [can_swap]
    nor [did_swap] for it. *)
Theorem shared_endpoint_never_swaps {R : Generator} {L : GeneratorLaws R}
    (Re_from Re_to : list Z) (swap_p : float) (n : nat) (w : Z → Z → float)
    (Rz_from Rz_to : list Z) (seed rd : Z) (k : nat) :
  length Re_to = length Re_from → Re_from ≠ [] →
  length Re_from ≤ length Rz_from → length Re_from ≤ length Rz_to →
  Forall in_int_range Re_from → Forall in_int_range Re_to →
  NoDup (zip Re_from Re_to) →
  k < n →
  let m := Z.of_nat (length Re_from) in
  (∃ st st',
     simple_run Re_from Re_to k swap_p seed rd = Some st ∧
     simple_run Re_from Re_to (S k) swap_p seed rd = Some st' ∧
     ∀ a b c d,
       endpoints st (proposal m (gen st)).1.1 (proposal m (gen st)).1.2
         = Some (a, b, c, d) →
       a = c ∨ b = d →
       edges st' = edges st) ∧
  (∃ s s1 out,
     swap_run Re_from Re_to n w Rz_from Rz_to seed rd k = Some s ∧
     swap_run Re_from Re_to n w Rz_from Rz_to seed rd (S k) = Some s1 ∧
     swap_n Re_from Re_to n w Rz_from Rz_to seed rd = Some out ∧
     ∀ a b c d,
       endpoints s.1 (proposal m (gen s.1)).1.1 (proposal m (gen s.1)).1.2
         = Some (a, b, c, d) →
       a = c ∨ b = d →
       edges s1.1 = edges s.1 ∧
       can_swap (wr_diag out) !! k = Some false ∧
       did_swap (wr_diag out) !! k = Some false).
Proof.
  intros Hlen Hne Hzf Hzt Hrf Hrt Hnd Hk m.
  rewrite <- (to_int_fmap_id _ Hrf), <- (to_int_fmap_id _ Hrt) in Hnd.
  split.
  - destruct (simple_run_step Re_from Re_to k swap_p seed rd Hlen Hne)
      as (st & st' & Hs & Hs' & Hb & _ & Hidx & _).
    exists st, st'. do 2 (split; [done|]). intros a b c d He Hshare.
    destruct (simple_body_effect _ _ _ _ _ _ _ _ Hb He) as [Heff Hto].
    rewrite (shared_end_is_an_edge _ _ _ _ _ _ _ (Hidx Hnd) He Hshare) in Heff.
    simpl in Heff. rewrite andb_false_r in Heff. simpl in Heff.
    destruct Heff as [Hf _]. unfold edges. by rewrite Hf, Hto.
  - destruct (swap_run_step Re_from Re_to n w Rz_from Rz_to seed rd k
                Hlen Hne Hzf Hzt Hk)
      as (s & s1 & out & zs & Hs & Hs1 & Hout & _ & _ & Hb & Hrow & Hblank &
          Hcols & _ & Hidx & _).
    exists s, s1, out. do 3 (split; [done|]). intros a b c d He Hshare.
    destruct s as [st dg]. simpl in *.
    destruct (swap_body_effect _ _ _ _ _ _ _ n _ _ _ _ Hb Hcols Hk Hblank He)
      as (Hrow1 & Heff & Hto).
    rewrite <- Hrow in Hrow1. injection Hrow1 as _ _ _ Hcan Hdid _.
    rewrite Hcan, Hdid. clear Hcan Hdid.
    unfold checkerboard_fails in Heff |- *.
    rewrite (shared_end_is_an_edge _ _ _ _ _ _ _ (Hidx Hnd) He Hshare) in Heff |- *.
    simpl in Heff |- *. rewrite andb_false_r in Heff |- *. simpl in Heff |- *.
    destruct Heff as [Hf _]. unfold edges. by rewrite Hf, Hto.
Qed.

Lemma shared_endpoint_never_swaps_witness :
  let R := Replay.generator [0; 1; 0]%Z in
  NoDup (zip [1; 1]%Z [2; 4]%Z) ∧
  (∃ st st',
     simple_run [1; 1]%Z [2; 4]%Z 0 0.5%float 0 0 = Some st ∧
     simple_run [1; 1]%Z [2; 4]%Z 1 0.5%float 0 0 = Some st' ∧
     ∀ a b c d,
       endpoints st (proposal 2 (gen st)).1.1 (proposal 2 (gen st)).1.2
         = Some (a, b, c, d) →
       a = c ∨ b = d →
       edges st' = edges st) ∧
  (∃ s s1 out,
     swap_run [1; 1]%Z [2; 4]%Z 1 ones [9; 9]%Z [9; 9]%Z 0 0 0 = Some s ∧
     swap_run [1; 1]%Z [2; 4]%Z 1 ones [9; 9]%Z [9; 9]%Z 0 0 1 = Some s1 ∧
     swap_n [1; 1]%Z [2; 4]%Z 1 ones [9; 9]%Z [9; 9]%Z 0 0 = Some out ∧
     ∀ a b c d,
       endpoints s.1 (proposal 2 (gen s.1)).1.1 (proposal 2 (gen s.1)).1.2
         = Some (a, b, c, d) →
       a = c ∨ b = d →
       edges s1.1 = edges s.1 ∧
       can_swap (wr_diag out) !! 0 = Some false ∧
       did_swap (wr_diag out) !! 0 = Some false).
Proof.
  assert (Hnd : NoDup (zip [1; 1]%Z [2; 4]%Z))
    by (apply (bool_decide_unpack _); by vm_compute).
  split; [exact Hnd|].
  apply (shared_endpoint_never_swaps (L := replay_laws _) [1; 1]%Z [2; 4]%Z
           0.5%float 1 ones [9; 9]%Z [9; 9]%Z 0 0 0);
    simpl; first [lia | discriminate | exact Hnd | by repeat constructor].
Defined.

(** A draw that is not negative is not below a ratio that is not positive:
    zero, negative, or not a number. *)
Lemma ltb_nonneg_nonpos (u p : float) :
  PrimFloat.leb 0 u = true → PrimFloat.ltb 0 p = false →
  PrimFloat.ltb u p = false.
Proof.
  rewrite !ltb_spec, leb_spec.
  replace (Prim2SF 0) with (S754_zero false) by (vm_compute; reflexivity).
  unfold SFltb, SFleb, SFcompare.
  destruct (Prim2SF u) as [su|su| |su mu eu], (Prim2SF p) as [sp|sp| |sp mp ep];
    try destruct su; try destruct sp; try discriminate; try reflexivity.
Qed.

(** In [swap_n], a step whose recorded [swap_p] is not above zero (zero,
    negative, or not a number, as when all four weights are zero) records
    [did_swap] false and leaves the edge list as it was. *)
Theorem nonpositive_ratio_never_swaps {R : Generator} {L : GeneratorLaws R}
    (Re_from Re_to : list Z) (n : nat) (w : Z → Z → float)
    (Rz_from Rz_to : list Z) (seed rd : Z) (k : nat) :
  length Re_to = length Re_from → Re_from ≠ [] →
  length Re_from ≤ length Rz_from → length Re_from ≤ length Rz_to →
  k < n →
  ∃ s s1 out,
    swap_run Re_from Re_to n w Rz_from Rz_to seed rd k = Some s ∧
    swap_run Re_from Re_to n w Rz_from Rz_to seed rd (S k) = Some s1 ∧
    swap_n Re_from Re_to n w Rz_from Rz_to seed rd = Some out ∧
    ∀ p, swap_ps (wr_diag out) !! k = Some p →
         PrimFloat.ltb 0 p = false →
         did_swap (wr_diag out) !! k = Some false ∧ edges s1.1 = edges s.1.
Proof.
  intros Hlen Hne Hzf Hzt Hk.
  destruct (swap_run_step Re_from Re_to n w Rz_from Rz_to seed rd k
              Hlen Hne Hzf Hzt Hk)
    as (s & s1 & out & zs & Hs & Hs1 & Hout & _ & _ & Hb & Hrow & Hblank &
        Hcols & _ & _ & [[[[a b] c] d] He]).
  exists s, s1, out. do 3 (split; [done|]). intros p Hp Hneg.
  destruct s as [st dg].
  pose proof (λ q, ltb_nonneg_nonpos
                (randu (proposal (Z.of_nat (length Re_from)) (gen st)).2).1 q
                (proj1 (randu_range _))) as Hlt.
  simpl in *.
  destruct (swap_body_effect _ _ _ _ _ _ _ n _ _ _ _ Hb Hcols Hk Hblank He)
    as (Hrow1 & Heff & Hto).
  rewrite <- Hrow in Hrow1. injection Hrow1 as _ _ _ _ Hdid Hps.
  rewrite Hdid. rewrite Hps in Hp. clear Hdid Hps.
  destruct (_ && _ && negb (found zs (a, d))); simpl in *.
  - injection Hp as Hp. rewrite Hp in Heff |- *.
    rewrite (Hlt p Hneg) in Heff |- *.
    destruct Heff as [Hf _]. unfold edges. by rewrite Hf, Hto.
  - destruct Heff as [Hf _]. unfold edges. by rewrite Hf, Hto.
Qed.

Lemma nonpositive_ratio_never_swaps_witness :
  let R := Replay.generator [0; 1; 0]%Z in
  ∃ s s1 out,
    swap_run [1; 3]%Z [2; 4]%Z 1 (λ _ _, 0%float) [9; 9]%Z [9; 9]%Z 0 0 0
      = Some s ∧
    swap_run [1; 3]%Z [2; 4]%Z 1 (λ _ _, 0%float) [9; 9]%Z [9; 9]%Z 0 0 1
      = Some s1 ∧
    swap_n [1; 3]%Z [2; 4]%Z 1 (λ _ _, 0%float) [9; 9]%Z [9; 9]%Z 0 0
      = Some out ∧
    ∀ p, swap_ps (wr_diag out) !! 0 = Some p →
         PrimFloat.ltb 0 p = false →
         did_swap (wr_diag out) !! 0 = Some false ∧ edges s1.1 = edges s.1.
Proof.
  apply (nonpositive_ratio_never_swaps (L := replay_laws _) [1; 3]%Z [2; 4]%Z 1
           (λ _ _, 0%float) [9; 9]%Z [9; 9]%Z 0 0 0);
    simpl; first [lia | discriminate].
Defined.

(** A run none of whose steps takes its swap hands the vectors on as they
    came. *)
Lemma simple_run_frozen {R : Generator} {L : GeneratorLaws R}
    Re_from Re_to swap_p seed rd :
  length Re_to = length Re_from → Re_from ≠ [] →
  (∀ k st a b c d,
     simple_run Re_from Re_to k swap_p seed rd = Some st →
     let m := Z.of_nat (length Re_from) in
     let i := (proposal m (gen st)).1.1 in
     let j := (proposal m (gen st)).1.2 in
     endpoints st i j = Some (a, b, c, d) →
     negb (bool_decide (i = j))
     && (negb (found (edgeSet st) (a, d)) && negb (found (edgeSet st) (c, b)))
     && PrimFloat.ltb (randu (proposal m (gen st)).2).1 swap_p = false) →
  ∀ k, ∃ st, simple_run Re_from Re_to k swap_p seed rd = Some st ∧
             e_from st = Re_from ∧ e_to st = Re_to.
Proof.
  intros Hlen Hne Hno. induction k as [|k (st0 & Hk & Hf & Ht)].
  - unfold simple_run. rewrite init_Some by done. simpl. eauto.
  - destruct (simple_run_step Re_from Re_to k swap_p seed rd Hlen Hne)
      as (st & st' & Hs & Hs' & Hb & _ & _ & [[[[a b] c] d] He]).
    rewrite Hk in Hs. injection Hs as <-.
    exists st'. split; [done|].
    destruct (simple_body_effect _ _ _ _ _ _ _ _ Hb He) as [Heff Hto].
    rewrite (Hno k st0 a b c d Hk He) in Heff.
    destruct Heff as [Hf' _]. split; congruence.
Qed.

Lemma swap_run_frozen {R : Generator} {L : GeneratorLaws R}
    Re_from Re_to n w Rz_from Rz_to seed rd :
  length Re_to = length Re_from → Re_from ≠ [] →
  length Re_from ≤ length Rz_from → length Re_from ≤ length Rz_to →
  (∀ k s, k < n →
     swap_run Re_from Re_to n w Rz_from Rz_to seed rd k = Some s →
     let m := Z.of_nat (length Re_from) in
     (proposal m (gen s.1)).1.1 = (proposal m (gen s.1)).1.2) →
  ∀ k, k ≤ n →
    ∃ s, swap_run Re_from Re_to n w Rz_from Rz_to seed rd k = Some s ∧
         e_from s.1 = Re_from ∧ e_to s.1 = Re_to.
Proof.
  intros Hlen Hne Hzf Hzt Hno. induction k as [|k IH]; intros Hk.
  - unfold swap_run, zero_set. rewrite init_Some by done. simpl.
    rewrite build_set_take by done. simpl. eauto.
  - destruct IH as (s0 & Hk0 & Hf & Ht); [lia|].
    destruct (swap_run_step Re_from Re_to n w Rz_from Rz_to seed rd k
                Hlen Hne Hzf Hzt ltac:(lia))
      as (s & s1 & out & zs & Hs & Hs1 & _ & _ & _ & Hb & _ & Hblank &
          Hcols & _ & _ & [[[[a b] c] d] He]).
    rewrite Hk0 in Hs. injection Hs as <-.
    exists s1. split; [done|].
    pose proof (Hno k s0 ltac:(lia) Hk0) as Hij.
    destruct s0 as [st dg].
    destruct (swap_body_effect _ _ _ _ _ _ _ n _ _ _ _ Hb Hcols ltac:(lia)
                Hblank He) as (_ & Heff & Hto).
    simpl in Hij. rewrite (bool_decide_eq_true_2 _ Hij) in Heff.
    simpl in Heff. destruct Heff as [Hf' _]. simpl in *. split; congruence.
Qed.

(** With a single edge every step draws the same slot twice: both entry
    points return the edge as it came, and [swap_n] records [same_edge] in
    every row and never [can_swap] or [did_swap]. *)
Theorem single_edge_never_moves {R : Generator} {L : GeneratorLaws R}
    (a b : Z) (n : nat) (swap_p : float) (w : Z → Z → float)
    (Rz_from Rz_to : list Z) (seed rd : Z) :
  1 ≤ length Rz_from → 1 ≤ length Rz_to →
  simple_swap_n [a] [b] n swap_p seed rd = Some (SimpleResult [a] [b]) ∧
  ∃ out,
    swap_n [a] [b] n w Rz_from Rz_to seed rd = Some out ∧
    wr_from out = [a] ∧ wr_to out = [b] ∧
    ∀ k, k < n →
      same_edge (wr_diag out) !! k = Some true ∧
      can_swap (wr_diag out) !! k = Some false ∧
      did_swap (wr_diag out) !! k = Some false.
Proof.
  intros Hzf Hzt.
  assert (Hlen : length [b] = length [a]) by done.
  assert (Hne : [a] ≠ []) by done.
  assert (Hsame : ∀ g : G,
            (proposal (Z.of_nat (length [a])) g).1.1
            = (proposal (Z.of_nat (length [a])) g).1.2).
  { intros g.
    destruct (proposal_range (Z.of_nat (length [a])) g ltac:(simpl; lia)).
    simpl in *. lia. }
  split.
  - destruct (simple_run_frozen [a] [b] swap_p seed rd Hlen Hne) with (k := n)
      as (st & Hrun & Hf & Ht).
    { intros k st a' b' c' d' _ m i j _. subst m i j.
      by rewrite (bool_decide_eq_true_2 _ (Hsame (gen st))). }
    unfold simple_swap_n. rewrite Hrun. simpl. by rewrite Hf, Ht.
  - destruct (swap_run_frozen [a] [b] n w Rz_from Rz_to seed rd Hlen Hne
                Hzf Hzt) with (k := n) as (sn & Hsn & Hf & Ht); [|lia|].
    { intros k s _ _ m. apply Hsame. }
    assert (Hout : swap_n [a] [b] n w Rz_from Rz_to seed rd
                   = Some (SwapResult [a] [b] sn.2)).
    { unfold swap_n. rewrite Hsn. simpl. by rewrite Hf, Ht. }
    eexists. split; [exact Hout|]. do 2 (split; [done|]). simpl.
    intros k Hk.
    destruct (swap_run_step [a] [b] n w Rz_from Rz_to seed rd k
                Hlen Hne Hzf Hzt Hk)
      as (s & s1 & out & zs & Hs & Hs1 & Hout' & _ & _ & Hb & Hrow & Hblank &
          Hcols & _ & _ & [[[[a' b'] c'] d'] He]).
    rewrite Hout in Hout'. injection Hout' as <-. simpl in Hrow.
    destruct s as [st dg].
    destruct (swap_body_effect _ _ _ _ _ _ _ n _ _ _ _ Hb Hcols Hk Hblank He)
      as (Hrow1 & _).
    rewrite <- Hrow in Hrow1. injection Hrow1 as Hse _ _ Hcan Hdid _.
    rewrite Hse, Hcan, Hdid.
    by rewrite (bool_decide_eq_true_2 _ (Hsame (gen st))).
Qed.

Lemma single_edge_never_moves_witness :
  let R := Replay.generator [5; 6; 7]%Z in
  simple_swap_n [1]%Z [2]%Z 3 0.5%float 0 0 = Some (SimpleResult [1]%Z [2]%Z) ∧
  ∃ out,
    swap_n [1]%Z [2]%Z 3 ones [9]%Z [9]%Z 0 0 = Some out ∧
    wr_from out = [1]%Z ∧ wr_to out = [2]%Z ∧
    ∀ k, k < 3 →
      same_edge (wr_diag out) !! k = Some true ∧
      can_swap (wr_diag out) !! k = Some false ∧
      did_swap (wr_diag out) !! k = Some false.
Proof.
  apply (single_edge_never_moves (L := replay_laws _) 1 2 3 0.5%float ones
           [9]%Z [9]%Z 0 0); simpl; lia.
Defined.

(** With a [swap_p] that is not above zero (zero, negative, or not a
    number) [simple_swap_n] returns the edge list it was given, whatever the
    number of steps. *)
Theorem nonpositive_swap_p_is_identity {R : Generator} {L : GeneratorLaws R}
    (Re_from Re_to : list Z) (n : nat) (swap_p : float) (seed rd : Z) :
  length Re_to = length Re_from → Re_from ≠ [] →
  PrimFloat.ltb 0 swap_p = false →
  simple_swap_n Re_from Re_to n swap_p seed rd
    = Some (SimpleResult Re_from Re_to).
Proof.
  intros Hlen Hne Hp.
  destruct (simple_run_frozen Re_from Re_to swap_p seed rd Hlen Hne) with (k := n)
    as (st & Hrun & Hf & Ht).
  { intros k st a b c d _ m i j _.
    rewrite (ltb_nonneg_nonpos _ _
               (proj1 (randu_range (proposal m (gen st)).2)) Hp).
    apply andb_false_r. }
  unfold simple_swap_n. rewrite Hrun. simpl. by rewrite Hf, Ht.
Qed.

Lemma nonpositive_swap_p_is_identity_witness :
  let R := Replay.generator [0; 1; 0; 1; 0; 2]%Z in
  simple_swap_n [1; 3]%Z [2; 4]%Z 2 0%float 0 0
    = Some (SimpleResult [1; 3]%Z [2; 4]%Z).
Proof.
  apply (nonpositive_swap_p_is_identity (L := replay_laws _) [1; 3]%Z [2; 4]%Z);
    simpl; first [lia | discriminate | reflexivity].
Defined.

(** ** How the swap composes *)

(** A committed swap is undone by the same proposal, where the two [from]
    fields hold ids that fit an [int] (the vector holds [a] and [c]
    themselves). After the swap of slots [i] and [j] the two slots hold
    [(c,b)] and [(a,d)]; the checkerboard test now passes for them, since the
    old edges [(a,b)] and [(c,d)] have been erased; and committing the
    proposal [i], [j] again gives back the edge list and the hash set from
    before. *)
Theorem swap_back_restores {R : Generator} (st : chain) (i j a b c d : Z) :
  i ≠ j →
  endpoints st i j = Some (a, b, c, d) →
  e_from st !! Z.to_nat i = Some a → e_from st !! Z.to_nat j = Some c →
  (a, b) ∈ edgeSet st → (c, d) ∈ edgeSet st →
  (a, d) ∉ edgeSet st → (c, b) ∉ edgeSet st →
  ∃ st',
    commit i j a b c d st = Some st' ∧
    endpoints st' i j = Some (c, b, a, d) ∧
    checkerboard_fails (edgeSet st') c b a d = false ∧
    commit i j c b a d st' = Some st.
Proof.
  intros Hij He Hra Hrc Hab Hcd Had Hcb.
  pose proof (commit_Some _ _ _ _ _ _ _ He) as Hc.
  eexists. split; [exact Hc|].
  pose proof (commit_from_seen _ _ _ _ _ _ _ He) as Hseen.
  pose proof He as [(Hi & Ha & Hb) (Hj & Hcc & Hd)]%endpoints_Some.
  assert (Hne : Z.to_nat i ≠ Z.to_nat j) by lia.
  assert (He' : endpoints
            (Chain (<[Z.to_nat j := a]> (<[Z.to_nat i := c]> (e_from st)))
                   (e_to st)
                   ((({[ (c, b) ]} ∪ ({[ (a, d) ]} ∪ edgeSet st))
                       ∖ {[ (a, b) ]}) ∖ {[ (c, d) ]})
                   (gen st)) i j = Some (c, b, a, d)).
  { apply endpoints_Some. simpl. rewrite Hseen. repeat split; try done.
    - rewrite list_lookup_insert_ne by done.
      apply list_lookup_insert_eq. by eapply lookup_lt_Some.
    - apply list_lookup_insert_eq. rewrite length_insert.
      by eapply lookup_lt_Some. }
  split; [exact He'|]. split.
  { unfold checkerboard_fails. simpl. apply orb_false_iff.
    split; apply found_false; set_solver. }
  rewrite (commit_Some _ _ _ _ _ _ _ He'). simpl.
  destruct st as [ef et es g]. simpl in *. f_equal. f_equal.
  - rewrite (list_insert_insert_ne _ (Z.to_nat i) (Z.to_nat j)) by done.
    rewrite list_insert_insert_eq, list_insert_insert_eq.
    rewrite (list_insert_insert_ne _ (Z.to_nat j) (Z.to_nat i)) by done.
    rewrite (list_insert_id _ _ _ Hrc). by apply list_insert_id.
  - assert ((a, b) ≠ (a, d)) by (intros Heq; by rewrite Heq in Hab).
    assert ((a, b) ≠ (c, b)) by (intros Heq; by rewrite Heq in Hab).
    assert ((c, d) ≠ (a, d)) by (intros Heq; by rewrite Heq in Hcd).
    assert ((c, d) ≠ (c, b)) by (intros Heq; by rewrite Heq in Hcd).
    apply set_eq. intros x.
    destruct (decide (x = (a, b))), (decide (x = (c, d))); set_solver.
Qed.

Lemma swap_back_restores_witness :
  let R := Replay.generator [0; 1; 0]%Z in
  let st := Chain [1; 3]%Z [2; 4]%Z (list_to_set [(1, 2); (3, 4)]%Z)
                  (mt19937 0) in
  ∃ st',
    commit 0 1 1 2 3 4 st = Some st' ∧
    endpoints st' 0 1 = Some (3, 2, 1, 4)%Z ∧
    checkerboard_fails (edgeSet st') 3 2 1 4 = false ∧
    commit 0 1 3 2 1 4 st' = Some st.
Proof.
  apply (swap_back_restores (R := Replay.generator [0; 1; 0]%Z)).
  - lia.
  - reflexivity.
  - reflexivity.
  - reflexivity.
  - apply (bool_decide_unpack _). by vm_compute.
  - apply (bool_decide_unpack _). by vm_compute.
  - apply (bool_decide_unpack _). by vm_compute.
  - apply (bool_decide_unpack _). by vm_compute.
Defined.

(** ** The two samplers side by side *)

Section Agreement.
Context {R : Generator} {L : GeneratorLaws R}.

(** When every ratio of weights is at least one and the zero set holds no
    pair made of a [from] value and a [to] value of the input (read as
    [int]s), one iteration
    of the weighted sampler moves the chain as one iteration of the uniform
    sampler with a [swap_p] of at least one. *)
Lemma swap_body_as_simple Re_from Re_to m w zeroSet swap_p k st dg s' :
  shape Re_from Re_to st →
  (∀ a b c d, PrimFloat.leb 1 (ratio w a b c d) = true) →
  PrimFloat.leb 1 swap_p = true →
  (∀ a d, a ∈ to_int <$> Re_from → d ∈ to_int <$> Re_to →
          (a, d) ∉ zeroSet) →
  swap_body m w zeroSet k (st, dg) = Some s' →
  simple_body m swap_p st = Some s'.1.
Proof.
  intros [Hto Hfrom] Hw Hp Hz H.
  pose proof (λ q, ltb_below_one_le
                (randu (proposal m (gen st)).2).1 q
                (proj2 (randu_range _))) as Hlt.
  destruct (swap_body_Some _ _ _ _ _ _ _ H)
    as [[Hij ->]|(Hij & a & b & c & d & He &
         [[Hf ->]|[(Hf & Hzh & ->)|(Hf & Hzh & [[Hu ->]|(Hu & st' & Hc & ->)])]])];
    unfold simple_body, proposal in *; cbv zeta; simpl in *.
  - by rewrite bool_decide_eq_true_2.
  - rewrite bool_decide_eq_false_2 by done.
    rewrite endpoints_with_gen, He. simpl.
    unfold checkerboard_fails in Hf. rewrite <- negb_orb, Hf. done.
  - exfalso.
    rewrite (struct_zero_hit_after_checkerboard _ _ _ _ _ _ Hf) in Hzh.
    apply found_true in Hzh.
    apply endpoints_Some in He as [(_ & Ha & _) (_ & _ & Hd)].
    apply (Hz a d); [|by rewrite <- Hto; eapply list_elem_of_lookup_2|done].
    rewrite <- Hfrom. by eapply list_elem_of_lookup_2.
  - rewrite (Hlt _ (Hw a b c d)) in Hu. done.
  - rewrite bool_decide_eq_false_2 by done.
    rewrite endpoints_with_gen, He. simpl.
    unfold checkerboard_fails in Hf. rewrite <- negb_orb, Hf. simpl.
    by rewrite (Hlt _ Hp).
Qed.

Lemma swap_loop_as_simple Re_from Re_to w zeroSet swap_p k st dg :
  length Re_to = length Re_from → Re_from ≠ [] →
  shape Re_from Re_to st →
  (∀ a b c d, PrimFloat.leb 1 (ratio w a b c d) = true) →
  PrimFloat.leb 1 swap_p = true →
  (∀ a d, a ∈ to_int <$> Re_from → d ∈ to_int <$> Re_to →
          (a, d) ∉ zeroSet) →
  ∃ s, swap_loop (Z.of_nat (length Re_from)) w zeroSet k (st, dg) = Some s ∧
       simple_loop (Z.of_nat (length Re_from)) swap_p k st = Some s.1.
Proof.
  intros Hlen Hne Hsh Hw Hp Hz. induction k as [|k (s & Hs & Hs')]; simpl.
  - by eexists.
  - destruct (swap_loop_inv Re_from Re_to w zeroSet k (st, dg) Hlen Hne Hsh)
      as (s0 & Hs0 & Hsh0 & _).
    rewrite Hs in Hs0. injection Hs0 as <-.
    destruct (swap_body_inv Re_from Re_to w zeroSet k s Hlen Hne Hsh0)
      as (s1 & Hb & _).
    exists s1. rewrite Hs, Hs'. simpl. split; [done|].
    destruct s as [st1 dg1].
    by eapply swap_body_as_simple.
Qed.

End Agreement.

(** When every ratio of weights is at least one (as with equal weights) and
    no pair of the zero set can come up as a swap-completion edge (its first
    component is no [from] value of the input or its second no [to] value,
    all ids read as [int]s), [swap_n] returns the edge list that
    [simple_swap_n] returns for the same edge list, number of steps and seed
    and any [swap_p] of at least one. *)
Theorem weighted_agrees_with_uniform {R : Generator} {L : GeneratorLaws R}
    (Re_from Re_to : list Z) (n : nat) (w : Z → Z → float) (swap_p : float)
    (Rz_from Rz_to : list Z) (seed rd : Z) :
  length Re_to = length Re_from → Re_from ≠ [] →
  length Re_from ≤ length Rz_from → length Re_from ≤ length Rz_to →
  (∀ a b c d, PrimFloat.leb 1 (ratio w a b c d) = true) →
  PrimFloat.leb 1 swap_p = true →
  (∀ a d, a ∈ to_int <$> Re_from → d ∈ to_int <$> Re_to →
          (a, d) ∉ take (length Re_from)
                     (zip (to_int <$> Rz_from) (to_int <$> Rz_to))) →
  ∃ out,
    swap_n Re_from Re_to n w Rz_from Rz_to seed rd = Some out ∧
    simple_swap_n Re_from Re_to n swap_p seed rd
      = Some (SimpleResult (wr_from out) (wr_to out)).
Proof.
  intros Hlen Hne Hzf Hzt Hw Hp Hz.
  unfold swap_n, swap_run, simple_swap_n, simple_run, zero_set.
  rewrite init_Some by done. simpl. rewrite build_set_take by done. simpl.
  set (st0 := Chain _ _ _ _).
  destruct (swap_loop_as_simple Re_from Re_to w
              (list_to_set (take (length Re_from)
                 (zip (to_int <$> Rz_from) (to_int <$> Rz_to))))
              swap_p n st0 (diag_init n) Hlen Hne) as (s & Hs & Hs');
    [by split|done|done| |].
  { intros a d Ha Hd. rewrite elem_of_list_to_set. by apply Hz. }
  rewrite Hs, Hs'. simpl. by eexists.
Qed.

Lemma weighted_agrees_with_uniform_witness :
  let R := Replay.generator [0; 1; 0; 1; 0; 2]%Z in
  ∃ out,
    swap_n [1; 3]%Z [2; 4]%Z 2 ones [9; 9]%Z [9; 9]%Z 0 0 = Some out ∧
    simple_swap_n [1; 3]%Z [2; 4]%Z 2 1%float 0 0
      = Some (SimpleResult (wr_from out) (wr_to out)).
Proof.
  assert (Hz : ∀ a d : Z, a ∈ [1; 3]%Z → d ∈ [2; 4]%Z →
                          (a, d) ∉ [(9, 9); (9, 9)]%Z).
  { intros a d Ha _ Hin.
    apply elem_of_cons in Hin as [Hin|Hin].
    - injection Hin as -> ->.
      apply elem_of_cons in Ha as [Ha|Ha]; [lia|].
      apply elem_of_cons in Ha as [Ha|Ha]; [lia|].
      by apply elem_of_nil in Ha.
    - apply elem_of_cons in Hin as [Hin|Hin]; [|by apply elem_of_nil in Hin].
      injection Hin as -> ->.
      apply elem_of_cons in Ha as [Ha|Ha]; [lia|].
      apply elem_of_cons in Ha as [Ha|Ha]; [lia|].
      by apply elem_of_nil in Ha. }
  apply (weighted_agrees_with_uniform (L := replay_laws _) [1; 3]%Z [2; 4]%Z 2
           ones 1%float [9; 9]%Z [9; 9]%Z 0 0);
    first [exact Hz | simpl; first [lia | discriminate | reflexivity]].
Defined.
